(** * spiflasher: the serial protocol engine and the JEDEC decoder

    A shallow embedding of [spiflasher.py]: the worker thread
    [SerialThread.run] (Detect, Read, Write and Erase over a serial port),
    the slot [FlashUtility.process_detect] that decodes a JEDEC id, and
    the four click handlers [detect_flash], [read_flash], [write_flash]
    and [erase_chip], which decide whether a thread is started and with
    which arguments.

    - Python [int] is [Z]; [bytes] is [list byte]; [str] is [string].
    - Python [float] is IEEE binary64.  Every finite binary64 value is a
      rational, so a float is modelled as the [Q] it denotes, and every
      arithmetic operation rounds its exact result to the nearest
      representable value, ties to even ([PyFloat.fl]), subnormals and
      overflow included.  [fl_agrees_with_binary64] compares the model with
      the kernel's primitive floats.
    - The two dictionaries are [gmap]s.
    - The serial port, the file system and the Qt signals are the fields
      of a [world] that the statements of [run] thread through a state
      and exception monad; the two [while] loops take fuel.
    - What the environment does is data of the initial world: which calls
      on the port raise ([faults]), what arrives on the port ([rx]), what
      the files hold ([files]) and which paths cannot be opened for
      writing ([denied]).  The statements about [run] quantify over it.
    - A signal is what the code emits, with the arguments as they reach
      the slots: an argument declared [int] arrives as a C++ [int]
      ([c_int]).  What Qt emits of its own when a thread ends is not
      modelled, nor is the closing of the port and of the file when a
      [with] block ends.
    - A [str] is a [string] of code points below 256.
    - A click handler runs on a [Window]; what the port box and the file
      dialog answer are its arguments.  A thread that is started is
      recorded, and the statements that follow it through [run] say on
      which file system it runs. *)

From Stdlib Require Import ZArith QArith Qround Qabs Qpower Qfield Lia Lqa.
From Stdlib Require Import String Ascii Strings.Byte List Bool DecimalString.
From Stdlib Require Import Floats.
From stdpp Require Import base gmap strings list.

Set Default Proof Using "Type".

(* ================================================================== *)
(** * Python floats *)
(* ================================================================== *)

Module PyFloat.

(** binary64: 53 bits of precision, least exponent of a unit in the
    last place -1074, overflow threshold 2^1024. *)
Definition prec : Z := 53.
Definition emin : Z := -1074.
Definition emax : Z := 1024.

Definition pow2 (e : Z) : Q := (2 ^ e)%Q.

(** [Qlog2 x] is the integer [l] with [2^l <= x < 2^(l+1)], for [0 < x]. *)
Definition Qlog2 (x : Q) : Z :=
  let l := (Z.log2 (Qnum x) - Z.log2 (Zpos (Qden x)))%Z in
  if Qle_bool (pow2 l) x then l else (l - 1)%Z.

(** Nearest integer, ties to the even one. *)
Definition rne (x : Q) : Z :=
  let f := Qfloor x in
  match (x - inject_Z f ?= 1 # 2)%Q with
  | Lt => f
  | Gt => (f + 1)%Z
  | Eq => if Z.even f then f else (f + 1)%Z
  end.

(** Exponent of the unit in the last place of the binade of [x]
    (subnormals share [emin]). *)
Definition ulp_exp (x : Q) : Z := Z.max (Qlog2 x - (prec - 1)) emin.

Definition round_pos (x : Q) : Q :=
  let e := ulp_exp x in (inject_Z (rne (x / pow2 e)) * pow2 e)%Q.

(** The binary64 value nearest to the rational [x]. *)
Definition fl (x : Q) : Q :=
  match Qnum x with
  | Z0 => 0%Q
  | Zpos _ => round_pos x
  | Zneg _ => (- round_pos (- x))%Q
  end.

(** Beyond the largest finite binary64 value. *)
Definition overflows (x : Q) : bool := Qle_bool (pow2 emax) (Qabs x).

(** [int(x)]: truncation towards zero. *)
Definition trunc (x : Q) : Z :=
  if Qle_bool 0 x then Qfloor x else Qceiling x.

(** The rational a value of the Standard Library's specification of
    binary64 denotes; used to compare [fl] with the primitive floats. *)
Definition SF2Q (f : spec_float) : option Q :=
  match f with
  | S754_zero _ => Some 0%Q
  | S754_finite s m e =>
      Some ((if s then -1 else 1) * inject_Z (Zpos m) * pow2 e)%Q
  | _ => None
  end.

Definition prim_of_Z (n : Z) : PrimFloat.float :=
  PrimFloat.of_uint63 (Uint63.of_Z n).

(** [a / b * 100] computed by the kernel's binary64 arithmetic, for
    [0 <= a, b < 2^53]. *)
Definition prim_ratio100 (a b : Z) : option Q :=
  SF2Q (Prim2SF (PrimFloat.mul (PrimFloat.div (prim_of_Z a) (prim_of_Z b))
                               (prim_of_Z 100))).

(** Whether the model computes [a / b * 100] as the kernel's binary64
    arithmetic does. *)
Definition agrees (a b : Z) : bool :=
  match prim_ratio100 a b with
  | Some q => Qeq_bool q (fl (fl (inject_Z a / inject_Z b) * inject_Z 100))
  | None => false
  end.

End PyFloat.

(* ================================================================== *)
(** * Python exceptions, integers and string formatting *)
(* ================================================================== *)

(** An exception: its class and [str(e)]. *)
Record exn := Exn { exn_class : string; exn_str : string }.

Definition ZeroDivisionError := Exn "ZeroDivisionError" "division by zero".
Definition OverflowError (msg : string) := Exn "OverflowError" msg.
Definition AttributeError (msg : string) := Exn "AttributeError" msg.
Definition TypeError (msg : string) := Exn "TypeError" msg.
Definition IndexError (msg : string) := Exn "IndexError" msg.
Definition UnboundLocalError (var : string) :=
  Exn "UnboundLocalError"
      ("cannot access local variable '" ++ var
         ++ "' where it is not associated with a value").
(** [str.isprintable] on a code point below 256: the ASCII characters
    from the space to the tilde, and the Latin-1 characters from the
    inverted exclamation mark on, the soft hyphen excepted. *)
Definition py_printable (c : ascii) : bool :=
  let n := N_of_ascii c in
  ((32 <=? n)%N && (n <? 127)%N) || ((161 <=? n)%N && negb (n =? 173)%N).

Definition hex_lower (d : N) : string :=
  String.substring (N.to_nat d) 1 "0123456789abcdef".

Definition backslash : ascii := ascii_of_nat 92.
Definition double_quote : ascii := ascii_of_nat 34.
Definition single_quote : ascii := ascii_of_nat 39.

(** One character of [repr(s)] between the quotes [quote]. *)
Definition py_escape (quote c : ascii) : string :=
  let n := N_of_ascii c in
  if Ascii.eqb c quote || Ascii.eqb c backslash
  then String backslash (String c EmptyString)
  else if (n =? 9)%N then String backslash "t"
  else if (n =? 10)%N then String backslash "n"
  else if (n =? 13)%N then String backslash "r"
  else if py_printable c then String c EmptyString
  else String backslash
         ("x" ++ hex_lower (n / 16) ++ hex_lower (n mod 16))%string.

(** [repr(s)] for a [str] of code points below 256: between single
    quotes, or between double quotes when [s] holds a single quote and no
    double quote; the quote in use, the backslash and what is not
    printable are escaped. *)
Definition py_repr (s : string) : string :=
  let chars := list_ascii_of_string s in
  let quote :=
    if existsb (Ascii.eqb single_quote) chars
       && negb (existsb (Ascii.eqb double_quote) chars)
    then double_quote else single_quote in
  String quote
    (fold_right (fun c acc => (py_escape quote c ++ acc)%string)
                (String quote EmptyString) chars).

(** [open] on a path that does not exist; [str(e)] shows the path as
    [repr] does. *)
Definition FileNotFoundError (path : string) :=
  Exn "FileNotFoundError"
      ("[Errno 2] No such file or directory: " ++ py_repr path).
(** What pySerial raises: the message is the operating system's. *)
Definition SerialException (msg : string) := Exn "SerialException" msg.

(** [a / b] on two [int]s: the correctly rounded quotient. *)
Definition py_truediv (a b : Z) : exn + Q :=
  if (b =? 0)%Z then inl ZeroDivisionError
  else
    let q := PyFloat.fl (inject_Z a / inject_Z b) in
    if PyFloat.overflows q
    then inl (OverflowError "integer division result too large for a float")
    else inr q.

(** [int(x * k)] for a float [x] and an [int] [k] that converts exactly:
    the product rounds to a float, which is infinite beyond the largest
    finite value, and [int] refuses an infinity. *)
Definition py_int_mul (x : Q) (k : Z) : exn + Z :=
  let p := PyFloat.fl (x * inject_Z k) in
  if PyFloat.overflows p
  then inl (OverflowError "cannot convert float infinity to integer")
  else inr (PyFloat.trunc p).

(** An [int] argument of a signal declared with [int] reaches the slots
    as a C++ [int]: the 32-bit signed integer with the same low 32 bits. *)
Definition c_int (n : Z) : Z := ((n + 2 ^ 31) mod 2 ^ 32 - 2 ^ 31)%Z.

Definition byte_val (b : byte) : Z := Z.of_N (Byte.to_N b).

(** [n.to_bytes(4, 'little')]. *)
Definition to_bytes4 (n : Z) : exn + list byte :=
  if (n <? 0)%Z
  then inl (OverflowError "can't convert negative int to unsigned")
  else if (2 ^ 32 <=? n)%Z then inl (OverflowError "int too big to convert")
  else
    inr (map (fun i => match Byte.of_N (Z.to_N ((n / 2 ^ (8 * i)) mod 256)) with
                       | Some b => b
                       | None => x00
                       end)
             [0; 1; 2; 3]%Z).

(** [int.from_bytes(bs, 'little')]. *)
Fixpoint from_bytes (bs : list byte) : Z :=
  match bs with
  | [] => 0
  | b :: bs' => (byte_val b + 256 * from_bytes bs')%Z
  end.

Definition hex_digit (d : Z) : string :=
  String.substring (Z.to_nat d) 1 "0123456789ABCDEF".

(** [f"{b:X}"] for an element of a [bytes]. *)
Definition format_X (b : byte) : string :=
  let v := byte_val b in
  if (v <? 16)%Z then hex_digit v
  else hex_digit (v / 16) ++ hex_digit (v mod 16).

(** [f"{b:02X}"]. *)
Definition format_02X (b : byte) : string :=
  let v := byte_val b in hex_digit (v / 16) ++ hex_digit (v mod 16).

Definition str_int (n : Z) : string := NilZero.string_of_int (Z.to_int n).

(** [f"{x:.1f}"]: the decimal with one fractional digit nearest to the
    exact value of the float, ties to even. *)
Definition format_1f (x : Q) : string :=
  let tenths := PyFloat.rne (Qabs x * 10) in
  (if Qle_bool 0 x then "" else "-")
    ++ str_int (tenths / 10) ++ "." ++ str_int (tenths mod 10).

(* ================================================================== *)
(** * The lookup tables *)
(* ================================================================== *)

Definition MANUFACTURERS : gmap Z string :=
  list_to_map
    [ (0xEF, "Winbond"); (0xC2, "Macronix"); (0x20, "Micron");
      (0x1F, "Adesto/Atmel"); (0xBF, "Microchip"); (0x1C, "EON");
      (0x9D, "ISSI") ]%Z.

Definition DEVICE_CAPACITY : gmap Z string :=
  list_to_map
    [ (0x11, "512KB"); (0x12, "1MB"); (0x13, "2MB"); (0x14, "4MB");
      (0x15, "8MB"); (0x16, "16MB"); (0x17, "32MB"); (0x18, "64MB");
      (0x19, "128MB"); (0x40, "1MB"); (0x50, "2MB"); (0x60, "4MB");
      (0x70, "8MB"); (0x80, "16MB"); (0x90, "32MB") ]%Z.

(* ================================================================== *)
(** * The world of the worker thread *)
(* ================================================================== *)

(** The four Qt signals of [SerialThread], with the arguments that reach
    the slots: [progress] is declared with [int] and [detect_result] with
    [bytes, int], so their integer has gone through [c_int]. *)
Inductive signal :=
| progress (percent : Z)
| detect_result (jedec : list byte) (capacity : Z)
| finished
| error (message : string).

(** One call on the serial port, as it ended. *)
Inductive call :=
| Opened
| Written (data : list byte)
| Got (size : Z) (data : list byte)
| Faulted (message : string).

(** - [faults i] is the message of the exception the [i]-th call on the
      port raises, if it raises one;
    - [rx] is what the successive reads find within their timeout, in
      arrival order: the head is what the next [read] can take, and a
      read past the end of [rx] times out with nothing;
    - [trace] is the calls made so far, [files] the file system and
      [signals] the signals emitted so far, oldest first;
    - [denied p] is the exception that opening the path [p] for writing
      raises, if it raises one: its directory is missing, it is a
      directory, the permission is refused. *)
Record world := World {
  faults : nat -> option string;
  rx : list (list byte);
  trace : list call;
  files : gmap string (list byte);
  signals : list signal;
  denied : string -> option exn
}.

Definition log (c : call) (w : world) : world :=
  World (faults w) (rx w) (trace w ++ [c]) (files w) (signals w) (denied w).
Definition set_rx (r : list (list byte)) (w : world) : world :=
  World (faults w) r (trace w) (files w) (signals w) (denied w).
Definition set_files (f : gmap string (list byte)) (w : world) : world :=
  World (faults w) (rx w) (trace w) f (signals w) (denied w).
Definition add_signal (s : signal) (w : world) : world :=
  World (faults w) (rx w) (trace w) (files w) (signals w ++ [s]) (denied w).

(** How a statement ends: it falls through with a value, executes
    [return], raises, or is still looping when the fuel is spent. *)
Inductive outcome (A : Type) :=
| Val (a : A)
| Return
| Raise (e : exn)
| Spin.
Arguments Val {A} a.
Arguments Return {A}.
Arguments Raise {A} e.
Arguments Spin {A}.

(** Statements over a state [S]. *)
Definition stmt (S A : Type) : Type := S -> outcome A * S.

Definition ret {S A} (a : A) : stmt S A := fun w => (Val a, w).
Definition bind {S A B} (m : stmt S A) (f : A -> stmt S B) : stmt S B :=
  fun w =>
    match m w with
    | (Val a, w') => f a w'
    | (Return, w') => (Return, w')
    | (Raise e, w') => (Raise e, w')
    | (Spin, w') => (Spin, w')
    end.
Definition return_ {S A} : stmt S A := fun w => (Return, w).
Definition raise {S A} (e : exn) : stmt S A := fun w => (Raise e, w).
Definition spin {S A} : stmt S A := fun w => (Spin, w).
Definition lift {S A} (r : exn + A) : stmt S A :=
  match r with inl e => raise e | inr a => ret a end.

(** [b[i]] on a [bytes]. *)
Definition index {S} (b : list byte) (i : nat) : stmt S byte :=
  match b !! i with
  | Some x => ret x
  | None => raise (IndexError "index out of range")
  end.

Notation "x <- m ;; k" := (bind m (fun x => k))
  (at level 100, m at next level, right associativity).
Notation "m ;;; k" := (bind m (fun _ => k))
  (at level 100, right associativity).

(** Statements of the worker thread. *)
Definition M (A : Type) : Type := stmt world A.

(** [signal.emit(...)]. *)
Definition emit (s : signal) : M unit := fun w => (Val tt, add_signal s w).

(** A call on the port raises when [faults] says so, and otherwise runs. *)
Definition port_call {A} (body : world -> A * call * world) : M A :=
  fun w =>
    match faults w (length (trace w)) with
    | Some msg => (Raise (SerialException msg), log (Faulted msg) w)
    | None => let '(a, c, w') := body w in (Val a, log c w')
    end.

(** [serial.Serial(port, 500000, timeout=2)]. *)
Definition ser_open : M unit := port_call (fun w => (tt, Opened, w)).

(** [ser.write(data)]. *)
Definition ser_write (data : list byte) : M unit :=
  port_call (fun w => (tt, Written data, w)).

(** What a [read(size)] takes from the input [r], and what it leaves:
    at most [size] of the bytes that arrive within the timeout; the
    others stay in the input buffer, at the head. *)
Definition recv (size : Z) (r : list (list byte))
  : list byte * list (list byte) :=
  let avail := hd [] r in
  let got := firstn (Z.to_nat size) avail in
  match skipn (Z.to_nat size) avail with
  | [] => (got, tl r)
  | rest => (got, rest :: tl r)
  end.

(** [ser.read(size)]. *)
Definition ser_read (size : Z) : M (list byte) :=
  port_call (fun w =>
    let '(got, r) := recv size (rx w) in (got, Got size got, set_rx r w)).

(** [open(path, 'wb')]: the file is created or truncated, unless the
    path cannot be opened for writing. *)
Definition open_wb (path : option string) : M string :=
  match path with
  | None => raise (TypeError
      "expected str, bytes or os.PathLike object, not NoneType")
  | Some p => fun w =>
      match denied w p with
      | Some e => (Raise e, w)
      | None => (Val p, set_files (<[p := []]> (files w)) w)
      end
  end.

(** [f.write(chunk)] on a file opened by [open_wb]. *)
Definition f_write (p : string) (chunk : list byte) : M unit :=
  fun w => (Val tt, set_files (alter (fun old => old ++ chunk) p (files w)) w).

(** [open(path, 'rb')]: the handle is the part of the file not read yet. *)
Definition open_rb (path : option string) : M (list byte) :=
  match path with
  | None => raise (TypeError
      "expected str, bytes or os.PathLike object, not NoneType")
  | Some p => fun w =>
      match files w !! p with
      | Some content => (Val content, w)
      | None => (Raise (FileNotFoundError p), w)
      end
  end.

(** [f.read(n)]: the next [n] bytes, fewer at the end of the file. *)
Definition f_read (n : nat) (f : list byte) : list byte * list byte :=
  (firstn n f, skipn n f).

(* ================================================================== *)
(** * SerialThread *)
(* ================================================================== *)

Record SerialThread := {
  port : string;
  command : string;
  file_path : option string;
  flash_size : option Z
}.

(** [self.flash_size.to_bytes(4, 'little')]. *)
Definition flash_size_bytes (self : SerialThread) : M (list byte) :=
  match flash_size self with
  | None => raise (AttributeError
      "'NoneType' object has no attribute 'to_bytes'")
  | Some n => lift (to_bytes4 n)
  end.

(** [int(count / total * 100)]. *)
Definition percent (count total : Z) : exn + Z :=
  match py_truediv count total with
  | inl e => inl e
  | inr q => py_int_mul q 100
  end.

Definition ACK : list byte := [xaa].

#[global] Instance byte_eq_decision : EqDecision byte := Byte.byte_eq_dec.

(** [a == b] on two [bytes]. *)
Definition bytes_eqb (a b : list byte) : bool := bool_decide (a = b).

(** The [while received < total] loop of Read. *)
Fixpoint read_loop (fuel : nat) (f : string) (total received : Z) : M unit :=
  if (received <? total)%Z then
    match fuel with
    | O => spin
    | S fuel' =>
        chunk <- ser_read (Z.min 4096 (total - received)) ;;
        f_write f chunk ;;;
        let received := (received + Z.of_nat (length chunk))%Z in
        p <- lift (percent received total) ;;
        emit (progress (c_int p)) ;;;
        read_loop fuel' f total received
    end
  else ret tt.

(** The [while sent < total] loop of Write; [f] is the open file. *)
Fixpoint write_loop (fuel : nat) (f : list byte) (total sent : Z) : M unit :=
  if (sent <? total)%Z then
    match fuel with
    | O => spin
    | S fuel' =>
        let '(chunk, f) := f_read 256 f in
        ser_write chunk ;;;
        let sent := (sent + Z.of_nat (length chunk))%Z in
        p <- lift (percent sent total) ;;
        emit (progress (c_int p)) ;;;
        write_loop fuel' f total sent
    end
  else ret tt.

Definition total_of (self : SerialThread) : Z :=
  match flash_size self with Some n => n | None => 0%Z end.

(** The body of the [with serial.Serial(...) as ser:] block. *)
Definition commands (fuel : nat) (self : SerialThread) : M unit :=
  if String.eqb (command self) "D" then
    ser_write [x44] ;;;
    jedec <- ser_read 3 ;;
    if negb (length jedec =? 3)%nat then
      emit (error "JEDEC ID read failed") ;;; return_
    else
      capacity_bytes <- ser_read 4 ;;
      if negb (length capacity_bytes =? 4)%nat then
        emit (error "Capacity read failed") ;;; return_
      else
        let capacity := from_bytes capacity_bytes in
        emit (detect_result jedec (c_int capacity))
  else if String.eqb (command self) "R" then
    ser_write [x52] ;;;
    ser_write [x00; x00; x00; x00] ;;;
    size <- flash_size_bytes self ;;
    ser_write size ;;;
    ack <- ser_read 1 ;;
    if negb (bytes_eqb ack ACK) then
      emit (error "ACK failed") ;;; return_
    else
      f <- open_wb (file_path self) ;;
      read_loop fuel f (total_of self) 0 ;;;
      emit finished
  else if String.eqb (command self) "W" then
    ser_write [x57] ;;;
    ser_write [x00; x00; x00; x00] ;;;
    size <- flash_size_bytes self ;;
    ser_write size ;;;
    ack <- ser_read 1 ;;
    if negb (bytes_eqb ack ACK) then
      emit (error "ACK failed") ;;; return_
    else
      f <- open_rb (file_path self) ;;
      write_loop fuel f (total_of self) 0 ;;;
      ack <- ser_read 1 ;;
      if bytes_eqb ack ACK then emit finished
      else emit (error "Write failed")
  else if String.eqb (command self) "E" then
    ser_write [x45] ;;;
    ack <- ser_read 1 ;;
    if bytes_eqb ack ACK then emit finished
    else emit (error "Erase failed")
  else ret tt.

(** [SerialThread.run]: the [try] block and its [except Exception]. *)
Definition run (fuel : nat) (self : SerialThread) : M unit :=
  fun w =>
    match (ser_open ;;; commands fuel self) w with
    | (Raise e, w') => emit (error ("Port error: " ++ exn_str e)) w'
    | (Return, w') => (Val tt, w')
    | r => r
    end.


(** ** Observations on a world *)

(** A thread starts on a port that was not used and has emitted nothing. *)
Definition start (f : nat -> option string) (r : list (list byte))
    (fs : gmap string (list byte)) (d : string -> option exn) : world :=
  World f r [] fs [] d.

(** Every path can be opened for writing. *)
Definition granted : string -> option exn := fun _ => None.

(** The port never raises. *)
Definition reliable (f : nat -> option string) : Prop := forall i, f i = None.

(** A peer that sends nothing: every read times out empty-handed. *)
Definition stalled (r : list (list byte)) : Prop := Forall (fun c => c = []) r.

(** The bytes written to the port, in order. *)
Fixpoint sent_bytes (t : list call) : list byte :=
  match t with
  | [] => []
  | Written data :: t' => data ++ sent_bytes t'
  | _ :: t' => sent_bytes t'
  end.

(** The sizes asked of the port by the reads, in order. *)
Fixpoint read_sizes (t : list call) : list Z :=
  match t with
  | [] => []
  | Got size _ :: t' => size :: read_sizes t'
  | _ :: t' => read_sizes t'
  end.

Definition is_fault (c : call) : bool :=
  match c with Faulted _ => true | _ => false end.

Definition is_progress (s : signal) : bool :=
  match s with progress _ => true | _ => false end.

(** The exception a statement ended with, if it raised one. *)
Definition raised {A} (r : outcome A) : option exn :=
  match r with Raise e => Some e | _ => None end.

(** The calls a statement made on the port between [w] and [w'] agree
    with [faults]: a call that [faults] lets through is logged as it ran,
    and a call that [faults] makes raise is logged as [Faulted], is the
    last call of the statement, and the statement ended raising it. *)
Definition traced {A} (w : world) (r : outcome A) (w' : world) : Prop :=
  exists calls,
    trace w' = trace w ++ calls
    /\ forall i c, calls !! i = Some c ->
         match faults w (length (trace w) + i) with
         | Some m =>
             c = Faulted m /\ raised r = Some (SerialException m)
             /\ S i = length calls
         | None => is_fault c = false
         end.

(** Between [w] and [w'] only [progress] signals were emitted. *)
Definition hushed (w w' : world) : Prop :=
  exists ps, signals w' = signals w ++ map progress ps.

(** A statement that emits nothing but [progress]. *)
Definition quiet {A} (m : M A) : Prop :=
  forall w r w',
    m w = (r, w') -> faults w' = faults w /\ traced w r w' /\ hushed w w'.

(** A statement that leaves the port alone and raises nothing: the
    emission of a terminal signal, [return]. *)
Definition closing {A} (m : M A) : Prop :=
  forall w r w',
    m w = (r, w') ->
    faults w' = faults w /\ trace w' = trace w /\ raised r = None.

(** A statement that, when it raises, has emitted nothing but [progress]. *)
Definition guarded {A} (m : M A) : Prop :=
  forall w r w',
    m w = (r, w') ->
    faults w' = faults w /\ traced w r w'
    /\ (forall e, raised r = Some e -> hushed w w').

(** ** Bounds that every command keeps *)

(** A write carries at most 256 bytes and a read asks for 1 to 4096. *)
Definition call_ok (c : call) : Prop :=
  match c with
  | Written data => (length data <= 256)%nat
  | Got size _ => (1 <= size <= 4096)%Z
  | _ => True
  end.

(** A detection comes from a Detect, and carries three JEDEC bytes and a
    capacity that fits a C++ [int]. *)
Definition signal_ok (cmd : string) (s : signal) : Prop :=
  match s with
  | detect_result jedec cap =>
      cmd = "D" /\ length jedec = 3%nat /\ (- 2 ^ 31 <= cap < 2 ^ 31)%Z
  | _ => True
  end.

(** A statement whose calls satisfy [call_ok] and whose signals satisfy
    [Q], and that changes no file outside [T]. *)
Definition keeps (T : string -> Prop) (Q : signal -> Prop) {A} (m : M A)
  : Prop :=
  forall w r w',
    m w = (r, w') ->
    (exists calls, trace w' = trace w ++ calls /\ Forall call_ok calls)
    /\ (exists new, signals w' = signals w ++ new /\ Forall Q new)
    /\ (forall p, ~ T p -> files w' !! p = files w !! p).

(** A statement that does not execute [return]. *)
Definition noreturn {A} (m : M A) : Prop :=
  forall w r w', m w = (r, w') -> r <> Return.

(** A statement that emits nothing but [progress] and does not execute
    [return]. *)
Definition calm {A} (m : M A) : Prop := quiet m /\ noreturn m.

(** The four commands. *)
Definition known (cmd : string) : Prop :=
  cmd = "D" \/ cmd = "R" \/ cmd = "W" \/ cmd = "E".

(** A statement that ends a command: it emits one signal, which is not a
    [progress], and neither raises nor loops. *)
Definition ending {A} (m : M A) : Prop :=
  forall w r w',
    m w = (r, w') ->
    raised r = None /\ r <> Spin
    /\ exists s, is_progress s = false /\ signals w' = signals w ++ [s].

(** A statement that emits [progress] signals and then, when it ends
    without raising, one signal that is not a [progress]. *)
Definition settled {A} (m : M A) : Prop :=
  forall w r w',
    m w = (r, w') ->
    exists ps tail,
      signals w' = signals w ++ map progress ps ++ tail
      /\ match r with
         | Val _ | Return => exists s, tail = [s] /\ is_progress s = false
         | _ => tail = []
         end.

(** Non-decreasing. *)
Fixpoint ascending (l : list Z) : Prop :=
  match l with
  | [] => True
  | x :: l' => match l' with [] => True | y :: _ => (x <= y)%Z end /\ ascending l'
  end.

(* ================================================================== *)
(** * FlashUtility *)
(* ================================================================== *)

(** The attributes of the window that [process_detect] touches; a label
    or the status line is the text it shows. *)
Record FlashUtility := {
  capacity : Z;
  manufacturer : string;
  part_number : string;
  jedec_id : list byte;
  lbl_manufacturer : string;
  lbl_capacity : string;
  lbl_part : string;
  lbl_jedec : string;
  status : string
}.

(** The window as [__init__] and [initUI] leave it. *)
Definition init : FlashUtility := {|
  capacity := 0;
  manufacturer := "Unknown";
  part_number := "Unknown";
  jedec_id := [x00; x00; x00];
  lbl_manufacturer := "Unknown";
  lbl_capacity := "0 MB";
  lbl_part := "Unknown";
  lbl_jedec := "00 00 00";
  status := "Disconnected"
|}.

Definition G (A : Type) : Type := stmt FlashUtility A.

Definition get {A} (field : FlashUtility -> A) : G A :=
  fun self => (Val (field self), self).
Definition update (f : FlashUtility -> FlashUtility) : G unit :=
  fun self => (Val tt, f self).

Definition set_capacity (v : Z) (s : FlashUtility) : FlashUtility :=
  Build_FlashUtility v (manufacturer s) (part_number s) (jedec_id s)
    (lbl_manufacturer s) (lbl_capacity s) (lbl_part s) (lbl_jedec s) (status s).
Definition set_manufacturer (v : string) (s : FlashUtility) : FlashUtility :=
  Build_FlashUtility (capacity s) v (part_number s) (jedec_id s)
    (lbl_manufacturer s) (lbl_capacity s) (lbl_part s) (lbl_jedec s) (status s).
Definition set_part_number (v : string) (s : FlashUtility) : FlashUtility :=
  Build_FlashUtility (capacity s) (manufacturer s) v (jedec_id s)
    (lbl_manufacturer s) (lbl_capacity s) (lbl_part s) (lbl_jedec s) (status s).
Definition set_jedec_id (v : list byte) (s : FlashUtility) : FlashUtility :=
  Build_FlashUtility (capacity s) (manufacturer s) (part_number s) v
    (lbl_manufacturer s) (lbl_capacity s) (lbl_part s) (lbl_jedec s) (status s).
Definition set_lbl_manufacturer (v : string) (s : FlashUtility) : FlashUtility :=
  Build_FlashUtility (capacity s) (manufacturer s) (part_number s) (jedec_id s)
    v (lbl_capacity s) (lbl_part s) (lbl_jedec s) (status s).
Definition set_lbl_capacity (v : string) (s : FlashUtility) : FlashUtility :=
  Build_FlashUtility (capacity s) (manufacturer s) (part_number s) (jedec_id s)
    (lbl_manufacturer s) v (lbl_part s) (lbl_jedec s) (status s).
Definition set_lbl_part (v : string) (s : FlashUtility) : FlashUtility :=
  Build_FlashUtility (capacity s) (manufacturer s) (part_number s) (jedec_id s)
    (lbl_manufacturer s) (lbl_capacity s) v (lbl_jedec s) (status s).
Definition set_lbl_jedec (v : string) (s : FlashUtility) : FlashUtility :=
  Build_FlashUtility (capacity s) (manufacturer s) (part_number s) (jedec_id s)
    (lbl_manufacturer s) (lbl_capacity s) (lbl_part s) v (status s).
Definition set_status (v : string) (s : FlashUtility) : FlashUtility :=
  Build_FlashUtility (capacity s) (manufacturer s) (part_number s) (jedec_id s)
    (lbl_manufacturer s) (lbl_capacity s) (lbl_part s) (lbl_jedec s) v.

(** A local variable is bound to a value or not bound yet. *)
Definition read_local {A} (name : string) (v : option A) : G A :=
  match v with
  | Some a => ret a
  | None => raise (UnboundLocalError name)
  end.

(** [FlashUtility.process_detect]; [mb] is its local variable, a float
    once the first [else] has run. *)
Definition process_detect (jedec : list byte) (capacity_arg : Z) : G unit :=
  update (set_jedec_id jedec) ;;;
  update (set_capacity capacity_arg) ;;;
  mfg_id <- index jedec 0 ;;
  update (set_manufacturer
            (default "Unknown" (MANUFACTURERS !! byte_val mfg_id))) ;;;
  j0 <- index jedec 0 ;;
  j1 <- index jedec 1 ;;
  j2 <- index jedec 2 ;;
  update (set_lbl_jedec
            (format_02X j0 ++ " " ++ format_02X j1 ++ " " ++ format_02X j2)) ;;;
  m <- get manufacturer ;;
  update (set_lbl_manufacturer m) ;;;
  cap <- get capacity ;;
  mb <- (if (cap =? 0)%Z then
           update (set_lbl_capacity "Unknown") ;;; ret None
         else
           mb <- lift (py_truediv cap (1024 * 1024)) ;;
           update (set_lbl_capacity (format_1f mb ++ " MB")) ;;;
           ret (Some mb)) ;;
  m <- get manufacturer ;;
  (if String.eqb m "Winbond" then
     jid <- get jedec_id ;;
     device_id <- index jid 1 ;;
     match DEVICE_CAPACITY !! byte_val device_id with
     | Some label =>
         update (set_part_number
                   ("W25Q" ++ format_X device_id ++ " (" ++ label ++ ")"))
     | None =>
         mb <- read_local "mb" mb ;;
         update (set_part_number ("Unknown Winbond (" ++ format_1f mb ++ "MB)"))
     end
   else
     jid <- get jedec_id ;;
     device_id <- index jid 2 ;;
     match DEVICE_CAPACITY !! byte_val device_id with
     | Some label => update (set_part_number (label ++ " Chip"))
     | None =>
         cap <- get capacity ;;
         mb <- (if (0 <? cap)%Z then lift (py_truediv cap (1024 * 1024))
                else ret 0%Q) ;;
         update (set_part_number ("Unknown (" ++ format_1f mb ++ "MB)"))
     end) ;;;
  p <- get part_number ;;
  update (set_lbl_part p) ;;;
  update (set_status "Flash detected successfully").

(* ================================================================== *)
(** * The slots of the window *)
(* ================================================================== *)

(** The window around [FlashUtility]: [boxes] is the texts of the error
    boxes shown, oldest first; [serial_thread] is the attribute of that
    name, and [started] the threads on which [start()] was called, oldest
    first. *)
Record Window := {
  ui : FlashUtility;
  boxes : list string;
  serial_thread : option SerialThread;
  started : list SerialThread
}.

Definition W (A : Type) : Type := stmt Window A.

(** A method that returns nothing: its [return] ends the method, not the
    caller. *)
Definition method {S} (body : stmt S unit) : stmt S unit :=
  fun s =>
    match body s with
    | (Return, s') => (Val tt, s')
    | r => r
    end.

(** A statement on the attributes, run inside the window. *)
Definition on_ui {A} (g : G A) : W A :=
  fun win =>
    let '(r, u) := g (ui win) in
    (r, Build_Window u (boxes win) (serial_thread win) (started win)).

(** [QMessageBox.critical(self, "Error", text)]. *)
Definition critical (text : string) : W unit :=
  fun win =>
    (Val tt, Build_Window (ui win) (boxes win ++ [text])
               (serial_thread win) (started win)).

(** [self.serial_thread = SerialThread(...)], the [connect] calls and
    [self.serial_thread.start()]. *)
Definition launch (t : SerialThread) : W unit :=
  fun win =>
    (Val tt, Build_Window (ui win) (boxes win) (Some t) (started win ++ [t])).

(** [FlashUtility.detect_flash]; [port_text] is what
    [self.port_combo.currentText()] returns. *)
Definition detect_flash (port_text : string) : W unit :=
  method
    (if String.eqb port_text "" then
       critical "Select a COM port" ;;; return_
     else
       launch {| port := port_text; command := "D";
                 file_path := None; flash_size := None |}).

(** [FlashUtility.read_flash]; [picked] is the path the file dialog
    returns when it is shown, empty when the user cancels. *)
Definition read_flash (port_text picked : string) : W unit :=
  method
    (cap <- on_ui (get capacity) ;;
     if (cap =? 0)%Z then critical "Detect flash first!" ;;; return_
     else if String.eqb port_text "" then
       critical "Select a COM port" ;;; return_
     else if String.eqb picked "" then return_
     else
       cap <- on_ui (get capacity) ;;
       launch {| port := port_text; command := "R";
                 file_path := Some picked; flash_size := Some cap |}).

(** [open(file_path, 'rb')], [f.seek(0, 2)], [f.tell()]: the size of the
    file. *)
Definition file_size (disk : gmap string (list byte)) (path : string) : W Z :=
  match disk !! path with
  | Some content => ret (Z.of_nat (length content))
  | None => raise (FileNotFoundError path)
  end.

(** [FlashUtility.write_flash]; [disk] is the file system when the slot
    runs. *)
Definition write_flash (port_text picked : string)
    (disk : gmap string (list byte)) : W unit :=
  method
    (cap <- on_ui (get capacity) ;;
     if (cap =? 0)%Z then critical "Detect flash first!" ;;; return_
     else if String.eqb port_text "" then
       critical "Select a COM port" ;;; return_
     else if String.eqb picked "" then return_
     else
       size <- file_size disk picked ;;
       cap <- on_ui (get capacity) ;;
       if (cap <? size)%Z then
         critical ("File size (" ++ str_int size
                     ++ " bytes) exceeds flash capacity (" ++ str_int cap
                     ++ " bytes)") ;;;
         return_
       else
         launch {| port := port_text; command := "W";
                   file_path := Some picked; flash_size := Some size |}).

(** [FlashUtility.erase_chip]. *)
Definition erase_chip (port_text : string) : W unit :=
  method
    (if String.eqb port_text "" then
       critical "Select a COM port" ;;; return_
     else
       launch {| port := port_text; command := "E";
                 file_path := None; flash_size := None |}).

(** What a click may do to the window: it leaves the attributes that
    [process_detect] sets as they are, and either starts one thread, for
    the command [cmd] on the port chosen, which is not empty, and shows no
    box, or starts none and shows at most one box. *)
Definition click_ok (cmd port_text : string) (win : Window)
    (res : outcome unit * Window) : Prop :=
  ui res.2 = ui win
  /\ ((exists t,
         started res.2 = started win ++ [t] /\ serial_thread res.2 = Some t
         /\ boxes res.2 = boxes win /\ res.1 = Val tt
         /\ command t = cmd /\ port t = port_text /\ port_text <> "")
      \/ (started res.2 = started win
          /\ serial_thread res.2 = serial_thread win
          /\ (boxes res.2 = boxes win
              \/ exists text, boxes res.2 = boxes win ++ [text]))).

(* ================================================================== *)
(** * Facts about the float model *)
(* ================================================================== *)

Section FloatFacts.
Import PyFloat.
Local Open Scope Q_scope.

Lemma pow2_pos e : 0 < pow2 e.
Proof. apply Qpower_0_lt. reflexivity. Qed.

Lemma pow2_add a b : pow2 (a + b) == pow2 a * pow2 b.
Proof. apply Qpower_plus. discriminate. Qed.

Lemma pow2_le a b : (a <= b)%Z -> pow2 a <= pow2 b.
Proof. intros H. apply Qpower_le_compat_l; [exact H | discriminate]. Qed.

Lemma pow2_lt_inv a b : pow2 a < pow2 b -> (a < b)%Z.
Proof. intros H. apply (Qpower_lt_compat_l_inv 2); [exact H | reflexivity]. Qed.

Lemma pow2_inject n : (0 <= n)%Z -> inject_Z (2 ^ n) == pow2 n.
Proof. intros H. apply Zpower_Qpower. exact H. Qed.

(** [x / 2^e] and back. *)
Lemma scale_cancel x e : x / pow2 e * pow2 e == x.
Proof.
  pose proof (pow2_pos e) as Hp. field. intros E. rewrite E in Hp.
  discriminate.
Qed.

Lemma scale_le x y e : x <= y -> x / pow2 e <= y / pow2 e.
Proof.
  intros H. unfold Qdiv. apply Qmult_le_r; [|exact H].
  apply Qinv_lt_0_compat, pow2_pos.
Qed.

Lemma scale_le_pow x e k : x <= pow2 (e + k) -> x / pow2 e <= pow2 k.
Proof.
  intros H. apply Qle_shift_div_r; [apply pow2_pos|].
  rewrite Z.add_comm, pow2_add in H. exact H.
Qed.

Lemma scale_ge_pow x e k : pow2 (e + k) <= x -> pow2 k <= x / pow2 e.
Proof.
  intros H. apply Qle_shift_div_l; [apply pow2_pos|].
  rewrite Z.add_comm, pow2_add in H. exact H.
Qed.

Lemma frac_bounds (N D : Q) a b :
  pow2 a <= N -> N < pow2 (a + 1) -> pow2 b <= D -> D < pow2 (b + 1) ->
  pow2 (a - b - 1) <= N / D /\ N / D < pow2 (a - b + 1).
Proof.
  intros Ha Ha' Hb Hb'.
  assert (HD : 0 < D) by (eapply Qlt_le_trans; [apply pow2_pos | exact Hb]).
  split.
  - apply Qle_shift_div_l; [exact HD|].
    assert (E : pow2 (a - b - 1) * pow2 (b + 1) == pow2 a)
      by (rewrite <- pow2_add; f_equiv; lia).
    pose proof (pow2_pos (a - b - 1)). nra.
  - apply Qlt_shift_div_r; [exact HD|].
    assert (E : pow2 (a - b + 1) * pow2 b == pow2 (a + 1))
      by (rewrite <- pow2_add; f_equiv; lia).
    pose proof (pow2_pos (a - b + 1)). nra.
Qed.

Lemma inject_log2 n :
  (0 < n)%Z ->
  pow2 (Z.log2 n) <= inject_Z n /\ inject_Z n < pow2 (Z.log2 n + 1).
Proof.
  intros Hn. destruct (Z.log2_spec n Hn) as [H1 H2].
  pose proof (Z.log2_nonneg n) as H0.
  rewrite <- !pow2_inject by lia. rewrite <- Zle_Qle, <- Zlt_Qlt.
  split; [exact H1|]. replace (Z.log2 n + 1)%Z with (Z.succ (Z.log2 n)) by lia.
  exact H2.
Qed.

(** [Qlog2 x] is the binade of [x]. *)
Lemma Qlog2_spec x :
  0 < x -> pow2 (Qlog2 x) <= x /\ x < pow2 (Qlog2 x + 1).
Proof.
  intros Hx. destruct x as [n d].
  assert (Hn : (0 < n)%Z) by (unfold Qlt in Hx; simpl in Hx; lia).
  destruct (inject_log2 n Hn) as [Hn1 Hn2].
  destruct (inject_log2 (Zpos d) eq_refl) as [Hd1 Hd2].
  destruct (frac_bounds _ _ _ _ Hn1 Hn2 Hd1 Hd2) as [B1 B2].
  rewrite <- Qmake_Qdiv in B1, B2.
  unfold Qlog2. cbn [Qnum Qden].
  destruct (Qle_bool _ _) eqn:E.
  - apply Qle_bool_iff in E. split; [exact E | exact B2].
  - split; [exact B1|].
    replace (Z.log2 n - Z.log2 (Z.pos d) - 1 + 1)%Z
      with (Z.log2 n - Z.log2 (Z.pos d))%Z by lia.
    apply Qnot_le_lt. intros C. apply Qle_bool_iff in C. congruence.
Qed.

Lemma Qlog2_mono x y : 0 < x -> x <= y -> (Qlog2 x <= Qlog2 y)%Z.
Proof.
  intros Hx Hxy.
  destruct (Qlog2_spec x Hx) as [A _].
  destruct (Qlog2_spec y (Qlt_le_trans _ _ _ Hx Hxy)) as [_ B].
  assert (H : pow2 (Qlog2 x) < pow2 (Qlog2 y + 1)).
  { eapply Qle_lt_trans; [exact A|]. eapply Qle_lt_trans; [exact Hxy | exact B]. }
  apply pow2_lt_inv in H. lia.
Qed.

(** ** Rounding to the nearest integer *)

Lemma rne_floor x : (Qfloor x <= rne x <= Qfloor x + 1)%Z.
Proof.
  unfold rne. destruct (_ ?= _); [destruct (Z.even _)|..]; lia.
Qed.

Lemma rne_Z n : rne (inject_Z n) = n.
Proof.
  unfold rne. rewrite Qfloor_Z.
  destruct (Qcompare_spec (inject_Z n - inject_Z n) (1 # 2)) as [A|A|A];
    [exfalso; lra | reflexivity | exfalso; lra].
Qed.

Lemma rne_mono x y : x <= y -> (rne x <= rne y)%Z.
Proof.
  intros Hxy. pose proof (Qfloor_resp_le _ _ Hxy) as Hf.
  destruct (Z.eq_dec (Qfloor x) (Qfloor y)) as [E|NE].
  - unfold rne. rewrite <- E.
    destruct (Qcompare_spec (x - inject_Z (Qfloor x)) (1 # 2)) as [A|A|A];
      destruct (Qcompare_spec (y - inject_Z (Qfloor x)) (1 # 2)) as [B|B|B];
      try destruct (Z.even (Qfloor x)); try lia; exfalso; lra.
  - pose proof (rne_floor x). pose proof (rne_floor y). lia.
Qed.

Lemma rne_le_Z x n : x <= inject_Z n -> (rne x <= n)%Z.
Proof. intros H. rewrite <- (rne_Z n). apply rne_mono, H. Qed.

Lemma rne_ge_Z x n : inject_Z n <= x -> (n <= rne x)%Z.
Proof. intros H. rewrite <- (rne_Z n). apply rne_mono, H. Qed.

(** ** Rounding to binary64 *)

Lemma ulp_exp_mono x y : 0 < x -> x <= y -> (ulp_exp x <= ulp_exp y)%Z.
Proof.
  intros Hx Hxy. pose proof (Qlog2_mono x y Hx Hxy). unfold ulp_exp. lia.
Qed.

Lemma round_pos_nonneg x : 0 <= x -> 0 <= round_pos x.
Proof.
  intros Hx. unfold round_pos. cbv zeta.
  pose proof (pow2_pos (ulp_exp x)) as Hp.
  apply Qmult_le_0_compat; [|apply Qlt_le_weak, Hp].
  change 0 with (inject_Z 0). rewrite <- Zle_Qle. apply rne_ge_Z.
  apply Qle_shift_div_l; [exact Hp|].
  change (inject_Z 0) with 0. rewrite Qmult_0_l. exact Hx.
Qed.

Lemma round_pos_mono x y : 0 < x -> x <= y -> round_pos x <= round_pos y.
Proof.
  intros Hx Hxy. pose proof (ulp_exp_mono x y Hx Hxy) as He.
  assert (Hy : 0 < y) by lra.
  unfold round_pos. cbv zeta.
  destruct (Z.eq_dec (ulp_exp x) (ulp_exp y)) as [E|NE].
  - rewrite E. apply Qmult_le_r; [apply pow2_pos|].
    rewrite <- Zle_Qle. apply rne_mono, scale_le, Hxy.
  - assert (Hlt : (ulp_exp x < ulp_exp y)%Z) by lia. clear NE He.
    destruct (Qlog2_spec x Hx) as [_ Bx].
    destruct (Qlog2_spec y Hy) as [By _].
    set (ex := ulp_exp x) in *. set (ey := ulp_exp y) in *.
    assert (Ux : (rne (x / pow2 ex) <= 2 ^ 53)%Z).
    { apply rne_le_Z. rewrite pow2_inject by lia. apply scale_le_pow.
      apply Qlt_le_weak. eapply Qlt_le_trans; [exact Bx|].
      apply pow2_le. unfold ex, ulp_exp, prec. lia. }
    assert (Ly : (2 ^ 52 <= rne (y / pow2 ey))%Z).
    { apply rne_ge_Z. rewrite pow2_inject by lia. apply scale_ge_pow.
      eapply Qle_trans; [|exact By].
      apply pow2_le. unfold ey, ex, ulp_exp, prec in *. lia. }
    rewrite Zle_Qle in Ux, Ly. rewrite pow2_inject in Ux, Ly by lia.
    assert (Hstep : pow2 53 * pow2 ex <= pow2 52 * pow2 ey).
    { rewrite <- !pow2_add. apply pow2_le. lia. }
    pose proof (pow2_pos ex). pose proof (pow2_pos ey).
    eapply Qle_trans; [apply Qmult_le_r; [assumption | exact Ux]|].
    eapply Qle_trans; [exact Hstep|].
    apply Qmult_le_r; [assumption | exact Ly].
Qed.

Lemma fl_nonneg x : 0 <= x -> 0 <= fl x.
Proof.
  intros Hx. unfold fl. destruct x as [[|n|n] d]; cbn [Qnum].
  - apply Qle_refl.
  - apply round_pos_nonneg, Hx.
  - exfalso. unfold Qle in Hx. simpl in Hx. lia.
Qed.

(** Rounding is monotone. *)
Lemma fl_mono x y : 0 <= x -> x <= y -> fl x <= fl y.
Proof.
  intros Hx Hxy. destruct x as [[|n|n] d].
  - change (fl (0 # d)) with 0. apply fl_nonneg. lra.
  - assert (Hpos : 0 < Z.pos n # d) by reflexivity.
    destruct y as [[|m|m] e].
    + exfalso. unfold Qle in Hxy. simpl in Hxy. lia.
    + apply (round_pos_mono _ _ Hpos Hxy).
    + exfalso. unfold Qle in Hxy. simpl in Hxy. lia.
  - exfalso. unfold Qle in Hx. simpl in Hx. lia.
Qed.

Lemma fl_comp x y : 0 <= x -> x == y -> fl x == fl y.
Proof.
  intros Hx E. apply Qle_antisym; apply fl_mono; lra.
Qed.

Lemma fl_1 : fl 1 == 1.
Proof. vm_compute. reflexivity. Qed.

Lemma fl_100 : fl 100 == 100.
Proof. vm_compute. reflexivity. Qed.

Lemma trunc_nonneg x : 0 <= x -> trunc x = Qfloor x.
Proof.
  intros H. unfold trunc. apply Qle_bool_iff in H. rewrite H. reflexivity.
Qed.

Lemma not_overflows x b :
  0 <= x -> x <= inject_Z b -> (b < 2 ^ 1024)%Z -> overflows x = false.
Proof.
  intros H0 Hb Hlt. unfold overflows.
  destruct (Qle_bool _ _) eqn:E; [|reflexivity]. exfalso.
  apply Qle_bool_iff in E. rewrite Qabs_pos in E by exact H0.
  unfold emax in E. rewrite <- pow2_inject in E by lia.
  assert (C : inject_Z (2 ^ 1024) <= inject_Z b) by lra.
  rewrite <- Zle_Qle in C. lia.
Qed.

(** ** The progress percentage *)

Lemma ratio_bounds r t :
  (0 <= r <= t)%Z -> (0 < t)%Z ->
  0 <= inject_Z r / inject_Z t /\ inject_Z r / inject_Z t <= 1.
Proof.
  intros Hr Ht.
  assert (Ht' : 0 < inject_Z t)
    by (change 0 with (inject_Z 0); rewrite <- Zlt_Qlt; exact Ht).
  assert (Hr0 : 0 <= inject_Z r)
    by (change 0 with (inject_Z 0); rewrite <- Zle_Qle; lia).
  assert (Hrt : inject_Z r <= inject_Z t) by (rewrite <- Zle_Qle; lia).
  split.
  - apply Qle_shift_div_l; [exact Ht'|]. lra.
  - apply Qle_shift_div_r; [exact Ht'|]. lra.
Qed.

Lemma quotient_bounds r t :
  (0 <= r <= t)%Z -> (0 < t)%Z ->
  0 <= fl (inject_Z r / inject_Z t) /\ fl (inject_Z r / inject_Z t) <= 1.
Proof.
  intros Hr Ht. destruct (ratio_bounds r t Hr Ht) as [A B]. split.
  - apply fl_nonneg, A.
  - apply Qle_trans with (fl 1); [apply fl_mono; assumption|].
    apply Qle_lteq. right. apply fl_1.
Qed.

Lemma scaled_bounds q :
  0 <= q -> q <= 1 -> 0 <= fl (q * inject_Z 100) /\ fl (q * inject_Z 100) <= 100.
Proof.
  intros A B. change (inject_Z 100) with 100. split.
  - apply fl_nonneg. lra.
  - apply Qle_trans with (fl 100); [apply fl_mono; lra|].
    apply Qle_lteq. right. apply fl_100.
Qed.

(** Within a transfer the percentage is computed without an exception. *)
Lemma percent_eq r t :
  (0 <= r <= t)%Z -> (0 < t)%Z ->
  percent r t
  = inr (Qfloor (fl (fl (inject_Z r / inject_Z t) * inject_Z 100))).
Proof.
  intros Hr Ht. destruct (quotient_bounds r t Hr Ht) as [A B].
  destruct (scaled_bounds _ A B) as [C D].
  unfold percent, py_truediv.
  destruct (Z.eqb_spec t 0) as [E|_]; [lia|].
  rewrite (not_overflows _ 1 A B) by reflexivity.
  unfold py_int_mul.
  rewrite (not_overflows _ 100 C D) by reflexivity.
  rewrite trunc_nonneg by exact C. reflexivity.
Qed.

Lemma percent_range r t p :
  (0 <= r <= t)%Z -> (0 < t)%Z -> percent r t = inr p -> (0 <= p <= 100)%Z.
Proof.
  intros Hr Ht. rewrite percent_eq by assumption. intros [= <-].
  destruct (quotient_bounds r t Hr Ht) as [A B].
  destruct (scaled_bounds _ A B) as [C D].
  split.
  - rewrite <- (Qfloor_Z 0). apply Qfloor_resp_le, C.
  - rewrite <- (Qfloor_Z 100). apply Qfloor_resp_le, D.
Qed.

Lemma percent_mono r1 r2 t p1 p2 :
  (0 <= r1 <= r2)%Z -> (r2 <= t)%Z -> (0 < t)%Z ->
  percent r1 t = inr p1 -> percent r2 t = inr p2 -> (p1 <= p2)%Z.
Proof.
  intros H1 H2 Ht. rewrite !percent_eq by lia. intros [= <-] [= <-].
  destruct (ratio_bounds r1 t ltac:(lia) Ht) as [A1 _].
  destruct (quotient_bounds r1 t ltac:(lia) Ht) as [B1 _].
  assert (Ht' : 0 < inject_Z t)
    by (change 0 with (inject_Z 0); rewrite <- Zlt_Qlt; exact Ht).
  assert (Hle : inject_Z r1 / inject_Z t <= inject_Z r2 / inject_Z t).
  { unfold Qdiv. apply Qmult_le_r; [apply Qinv_lt_0_compat, Ht'|].
    rewrite <- Zle_Qle. lia. }
  apply Qfloor_resp_le, fl_mono.
  - change (inject_Z 100) with 100. lra.
  - apply Qmult_le_r; [reflexivity|]. apply fl_mono; assumption.
Qed.

Lemma percent_full t : (0 < t)%Z -> percent t t = inr 100%Z.
Proof.
  intros Ht. rewrite percent_eq by lia. f_equal.
  assert (Ht' : 0 < inject_Z t)
    by (change 0 with (inject_Z 0); rewrite <- Zlt_Qlt; exact Ht).
  assert (E1 : inject_Z t / inject_Z t == 1) by (field; lra).
  assert (E2 : fl (inject_Z t / inject_Z t) == 1).
  { eapply Qeq_trans; [apply fl_comp; [lra | exact E1] | apply fl_1]. }
  assert (E3 : fl (fl (inject_Z t / inject_Z t) * inject_Z 100) == 100).
  { eapply Qeq_trans; [apply fl_comp | apply fl_100].
    - change (inject_Z 100) with 100. lra.
    - rewrite E2. reflexivity. }
  rewrite E3. reflexivity.
Qed.

Lemma percent_zero t : (0 < t)%Z -> percent 0 t = inr 0%Z.
Proof.
  intros Ht. rewrite percent_eq by lia. reflexivity.
Qed.

(** ** The model against the kernel's binary64 arithmetic *)

(** [int(29 / 100 * 100)] is 28 in Python, not 29: the quotient rounds
    below 0.29. *)
Example percent_29_of_100 : percent 29 100 = inr 28%Z.
Proof. vm_compute. reflexivity. Qed.

(** On every [a <= b + 1] with [b <= 60], and on some 32-bit lengths,
    [fl (fl (a / b) * 100)] is the float the kernel computes. *)
Example fl_agrees_with_binary64 :
  forallb (fun b => forallb (fun a => agrees (Z.of_nat a) (Z.of_nat (S b)))
                            (seq 0 (S (S b))))
          (seq 0 60) = true
  /\ forallb (fun ab => agrees ab.1 ab.2)
       [(4096, 4294967295); (1, 4294967295); (4294967294, 4294967295);
        (16773120, 16777216); (12345678, 87654321); (1048575, 1048576);
        (3000000000, 4000000000)]%Z = true.
Proof. split; vm_compute; reflexivity. Qed.

End FloatFacts.

(* ================================================================== *)
(** * Running statements *)
(* ================================================================== *)

Section Stepping.

Lemma bind_val {S A B} (m : stmt S A) (f : A -> stmt S B) w a w' :
  m w = (Val a, w') -> bind m f w = f a w'.
Proof. intros H. unfold bind. rewrite H. reflexivity. Qed.

Lemma bind_raise {S A B} (m : stmt S A) (f : A -> stmt S B) w e w' :
  m w = (Raise e, w') -> bind m f w = (Raise e, w').
Proof. intros H. unfold bind. rewrite H. reflexivity. Qed.

Lemma ser_open_ok w :
  reliable (faults w) -> ser_open w = (Val tt, log Opened w).
Proof. intros H. unfold ser_open, port_call. rewrite H. reflexivity. Qed.

Lemma ser_write_ok data w :
  reliable (faults w) -> ser_write data w = (Val tt, log (Written data) w).
Proof. intros H. unfold ser_write, port_call. rewrite H. reflexivity. Qed.

Lemma ser_read_ok size w :
  reliable (faults w) ->
  ser_read size w
  = (Val (recv size (rx w)).1,
     log (Got size (recv size (rx w)).1) (set_rx (recv size (rx w)).2 w)).
Proof.
  intros H. unfold ser_read, port_call. rewrite H.
  destruct (recv size (rx w)). reflexivity.
Qed.

End Stepping.

Ltac step :=
  first
    [ erewrite bind_val by (apply ser_open_ok; assumption)
    | erewrite bind_val by (apply ser_write_ok; assumption)
    | erewrite bind_val by (apply ser_read_ok; assumption)
    | erewrite bind_val by reflexivity ].

(* ================================================================== *)
(** * Erase *)
(* ================================================================== *)

(** C7.  On a port that raises nothing, Erase writes the single byte
    ['E'] and reads one ack byte: if what the read returns is the byte
    0xAA the thread emits [finished]; for any other byte, and when the
    read times out with nothing, it emits [error "Erase failed"]. *)
Theorem erase_ack (fuel : nat) (self : SerialThread) (f : nat -> option string)
    (r : list (list byte)) (fs : gmap string (list byte))
    (d : string -> option exn) :
  command self = "E" -> reliable f ->
  let ack := (recv 1 r).1 in
  let w' := (run fuel self (start f r fs d)).2 in
  trace w' = [Opened; Written [x45]; Got 1 ack]
  /\ (ack = [xaa] -> signals w' = [finished])
  /\ (ack <> [xaa] -> signals w' = [error "Erase failed"]).
Proof.
  intros Hc Hf ack w'. subst w'. unfold run, commands. rewrite Hc.
  cbn [String.eqb Ascii.eqb Bool.eqb]. cbv beta iota.
  repeat step. cbn [rx log start set_rx]. fold ack.
  unfold bytes_eqb, ACK.
  destruct (bool_decide_reflect (ack = [xaa])) as [E|NE]; cbn.
  - split; [reflexivity|]. split; [reflexivity | congruence].
  - split; [reflexivity|]. split; [congruence | reflexivity].
Qed.

Lemma erase_ack_witness :
  let self := Build_SerialThread "COM3" "E" None None in
  let w' := (run 0 self (start (fun _ => None) [] ∅ granted)).2 in
  trace w' = [Opened; Written [x45]; Got 1 []]
  /\ signals w' = [error "Erase failed"].
Proof.
  intros self w'.
  destruct (erase_ack 0 self (fun _ => None) [] ∅ granted eq_refl (fun _ => eq_refl))
    as (Ht & _ & Hs).
  split; [exact Ht | apply Hs; discriminate].
Defined.

(* ================================================================== *)
(** * Detect *)
(* ================================================================== *)

Lemma c_int_small n : (- 2 ^ 31 <= n < 2 ^ 31)%Z -> c_int n = n.
Proof.
  intros H. unfold c_int. rewrite Z.mod_small by lia. lia.
Qed.

Lemma c_int_range n : (- 2 ^ 31 <= c_int n < 2 ^ 31)%Z.
Proof.
  unfold c_int. pose proof (Z.mod_pos_bound (n + 2 ^ 31) (2 ^ 32)). lia.
Qed.


(** A percentage between 0 and 100 goes through [c_int] unchanged. *)
Ltac plain_percent Hp :=
  match type of Hp with
  | percent ?r ?t = inr ?p =>
      rewrite (c_int_small p)
        by (pose proof (percent_range r t p ltac:(lia) ltac:(lia) Hp); lia)
  end.

Ltac plain_percent_in Hp H :=
  match type of Hp with
  | percent ?r ?t = inr ?p =>
      rewrite (c_int_small p) in H
        by (pose proof (percent_range r t p ltac:(lia) ltac:(lia) Hp); lia)
  end.





(* ================================================================== *)
(** * Read *)
(* ================================================================== *)

(** The state in which the Read loop starts, once [r] has delivered the
    ack: the request is on the wire and the dump file is empty. *)
Lemma run_read_reliable (fuel : nat) (self : SerialThread)
    (f : nat -> option string) (r : list (list byte))
    (fs : gmap string (list byte))
    (d : string -> option exn) (n : Z) (path : string) (size : list byte) :
  command self = "R" -> flash_size self = Some n -> file_path self = Some path ->
  to_bytes4 n = inr size -> reliable f -> (recv 1 r).1 = [xaa] ->
  d path = None ->
  run fuel self (start f r fs d)
  = match read_loop fuel path n 0
            (World f (recv 1 r).2
               [Opened; Written [x52]; Written [x00; x00; x00; x00];
                Written size; Got 1 [xaa]]
               (<[path := []]> fs) [] d) with
    | (Val _, w2) => (Val tt, add_signal finished w2)
    | (Return, w2) => (Val tt, w2)
    | (Raise e, w2) =>
        (Val tt, add_signal (error ("Port error: " ++ exn_str e)) w2)
    | (Spin, w2) => (Spin, w2)
    end.
Proof.
  intros Hc Hn Hp Hsz Hf Hack Hd. unfold run, commands. rewrite Hc.
  cbn [String.eqb Ascii.eqb Bool.eqb]. cbv beta iota.
  unfold flash_size_bytes, total_of. rewrite Hn, Hsz, Hp. cbn [lift].
  repeat step. cbn [rx log start set_rx]. rewrite Hack.
  change (bytes_eqb [xaa] ACK) with true. cbn [negb].
  erewrite bind_val
    by (cbn [open_wb denied log set_rx start]; rewrite Hd; reflexivity).
  unfold bind at 1.
  cbn [rx log start set_rx set_files files trace app faults signals denied].
  destruct (read_loop _ _ _ _ _) as [[a| |e|] w2]; reflexivity.
Qed.

(** C4.  A Read of 0 bytes into a file that can be opened for writing,
    once the ack has come: whatever the fuel, the thread ends with
    [finished] as its only signal, and the only read on the port is the
    one of the ack: the loop reads nothing and emits no [progress]. *)
Theorem read_zero_length (fuel : nat) (self : SerialThread)
    (f : nat -> option string) (r : list (list byte))
    (fs : gmap string (list byte))
    (d : string -> option exn) (path : string) :
  command self = "R" -> flash_size self = Some 0%Z ->
  file_path self = Some path -> d path = None ->
  reliable f -> (recv 1 r).1 = [xaa] ->
  let res := run fuel self (start f r fs d) in
  res.1 = Val tt
  /\ signals res.2 = [finished]
  /\ trace res.2
     = [Opened; Written [x52]; Written [x00; x00; x00; x00];
        Written [x00; x00; x00; x00]; Got 1 [xaa]]
  /\ read_sizes (trace res.2) = [1%Z]
  /\ files res.2 !! path = Some [].
Proof.
  intros Hc Hn Hp Hd Hf Hack res. subst res.
  rewrite (run_read_reliable fuel self f r fs d 0 path [x00; x00; x00; x00])
    by (assumption || reflexivity).
  destruct fuel; cbn [read_loop Z.ltb Z.compare ret add_signal signals trace
                      files fst snd app read_sizes];
    (repeat split; try reflexivity; apply lookup_insert_eq).
Qed.

Lemma read_zero_length_witness :
  let self := Build_SerialThread "COM3" "R" (Some "dump.bin") (Some 0%Z) in
  let res := run 0 self (start (fun _ => None) [[xaa]] ∅ granted) in
  res.1 = Val tt /\ signals res.2 = [finished]
  /\ read_sizes (trace res.2) = [1%Z].
Proof.
  intros self res.
  destruct (read_zero_length 0 self (fun _ => None) [[xaa]] ∅ granted
              "dump.bin" eq_refl eq_refl eq_refl eq_refl (fun _ => eq_refl)
              eq_refl)
    as (H1 & H2 & _ & H4 & _).
  repeat split; assumption.
Defined.

Lemma recv_length size r : (length (recv size r).1 <= Z.to_nat size)%nat.
Proof.
  unfold recv. destruct (skipn _ _); cbn [fst]; rewrite length_take; lia.
Qed.

Lemma recv_fit size c r :
  (length c <= Z.to_nat size)%nat -> recv size (c :: r) = (c, r).
Proof.
  intros H. unfold recv. cbn [hd tl].
  rewrite drop_ge by exact H. rewrite take_ge by exact H. reflexivity.
Qed.

Lemma recv_stalled size r :
  stalled r -> (recv size r).1 = [] /\ stalled (recv size r).2.
Proof.
  intros H. destruct H as [|c r' -> Hr'].
  - unfold recv. cbn. rewrite drop_nil, take_nil. split; constructor.
  - rewrite recv_fit by (cbn; lia). split; [reflexivity | exact Hr'].
Qed.

Lemma to_bytes4_ok n :
  (0 <= n < 2 ^ 32)%Z -> exists size, to_bytes4 n = inr size /\ length size = 4%nat.
Proof.
  intros H. unfold to_bytes4.
  destruct (Z.ltb_spec n 0); [lia|]. destruct (Z.leb_spec (2 ^ 32) n); [lia|].
  eexists. split; reflexivity.
Qed.

Lemma read_loop_done fuel path total received :
  (total <= received)%Z -> read_loop fuel path total received = ret tt.
Proof.
  intros H. destruct fuel; cbn [read_loop];
    destruct (Z.ltb_spec received total); (lia || reflexivity).
Qed.

Lemma read_loop_step fuel path total received :
  (received < total)%Z ->
  read_loop (S fuel) path total received
  = (chunk <- ser_read (Z.min 4096 (total - received)) ;;
     f_write path chunk ;;;
     p <- lift (percent (received + Z.of_nat (length chunk)) total) ;;
     emit (progress (c_int p)) ;;;
     read_loop fuel path total (received + Z.of_nat (length chunk))).
Proof.
  intros H. cbn [read_loop]. destruct (Z.ltb_spec received total); [|lia].
  reflexivity.
Qed.

(** A stalled peer keeps the loop spinning: each round reads nothing and
    repeats the same percentage. *)
Lemma read_loop_stalled path total received p0 :
  (received < total)%Z -> percent received total = inr p0 ->
  forall fuel w,
    reliable (faults w) -> stalled (rx w) ->
    exists w',
      read_loop fuel path total received w = (Spin, w')
      /\ signals w' = signals w ++ repeat (progress (c_int p0)) fuel
      /\ files w' !! path = files w !! path
      /\ trace w'
         = trace w ++ repeat (Got (Z.min 4096 (total - received)) []) fuel.
Proof.
  intros Hlt Hp. induction fuel as [|fuel IH]; intros w Hf Hs.
  - exists w. cbn [read_loop]. destruct (Z.ltb_spec received total); [|lia].
    cbn [repeat]. rewrite !app_nil_r. auto.
  - rewrite read_loop_step by exact Hlt.
    destruct (recv_stalled (Z.min 4096 (total - received)) _ Hs) as [E Hs'].
    rewrite (bind_val _ _ _ _ _ (ser_read_ok _ _ Hf)). rewrite E.
    cbn [length Z.of_nat]. rewrite Z.add_0_r, Hp.
    unfold f_write, emit, lift, ret. cbn [bind].
    match goal with |- context [read_loop fuel path total received ?w1] =>
      destruct (IH w1) as (w' & Hrun & Hsig & Hfiles & Htr);
        [exact Hf | exact Hs' |]
    end.
    exists w'. split; [exact Hrun|]. split; [|split].
    + rewrite Hsig. cbn [signals add_signal set_files log set_rx repeat].
      rewrite <- app_assoc. reflexivity.
    + rewrite Hfiles. cbn [files add_signal set_files log set_rx].
      rewrite lookup_alter_eq. destruct (files w !! path); cbn; [|reflexivity].
      rewrite app_nil_r. reflexivity.
    + rewrite Htr. cbn [trace add_signal set_files log set_rx repeat].
      rewrite <- app_assoc. reflexivity.
Qed.

(** C10.  A Read of [n > 0] bytes, into a file that can be opened for
    writing, from a peer that acknowledges and then sends nothing:
    whatever the fuel, the loop is still running when the fuel is spent,
    every signal emitted is [progress 0] (no [finished], no [error]),
    every read in the loop returned 0 bytes and was accepted, and the dump
    file stays empty. *)
Theorem read_stalled_never_ends (fuel : nat) (self : SerialThread)
    (f : nat -> option string) (stall : list (list byte))
    (fs : gmap string (list byte))
    (d : string -> option exn) (n : Z) (path : string) :
  command self = "R" -> flash_size self = Some n -> file_path self = Some path ->
  d path = None -> (0 < n < 2 ^ 32)%Z -> reliable f -> stalled stall ->
  let res := run fuel self (start f ([xaa] :: stall) fs d) in
  res.1 = Spin
  /\ signals res.2 = repeat (progress 0) fuel
  /\ read_sizes (trace res.2) = 1%Z :: repeat (Z.min 4096 n) fuel
  /\ files res.2 !! path = Some [].
Proof.
  intros Hc Hn Hp Hd Hrange Hf Hs res. subst res.
  destruct (to_bytes4_ok n ltac:(lia)) as (size & Hsz & _).
  rewrite (run_read_reliable fuel self f _ fs d n path size)
    by (assumption || reflexivity).
  rewrite recv_fit by (cbn; lia). cbn [snd].
  match goal with |- context [read_loop fuel path n 0 ?w1] =>
    destruct (read_loop_stalled path n 0 0 ltac:(lia)
                (percent_zero n ltac:(lia)) fuel w1 Hf Hs)
      as (w' & Hrun & Hsig & Hfiles & Htr)
  end.
  rewrite Hrun. cbn [fst snd]. split; [reflexivity|].
  split; [exact Hsig|]. split.
  - rewrite Htr. cbn [trace app read_sizes]. f_equal.
    rewrite Z.sub_0_r. clear. induction fuel; cbn; congruence.
  - rewrite Hfiles. apply lookup_insert_eq.
Qed.

Lemma read_stalled_never_ends_witness :
  let self := Build_SerialThread "COM3" "R" (Some "dump.bin") (Some 8%Z) in
  let res := run 5 self (start (fun _ => None) [[xaa]] ∅ granted) in
  res.1 = Spin /\ signals res.2 = repeat (progress 0) 5.
Proof.
  intros self res.
  destruct (read_stalled_never_ends 5 self (fun _ => None) [] ∅ granted 8
              "dump.bin" eq_refl eq_refl eq_refl eq_refl ltac:(lia)
              (fun _ => eq_refl) ltac:(constructor)) as (H1 & H2 & _).
  split; assumption.
Defined.

Lemma ascending_cons p ps :
  Forall (fun q => (p <= q)%Z) ps -> ascending ps -> ascending (p :: ps).
Proof.
  intros H A. cbn [ascending]. split; [|exact A].
  destruct ps as [|q ps']; [exact I|]. inversion H; assumption.
Qed.




(* ================================================================== *)
(** * Write *)
(* ================================================================== *)

Lemma sent_bytes_app t1 t2 : sent_bytes (t1 ++ t2) = sent_bytes t1 ++ sent_bytes t2.
Proof.
  induction t1 as [|c t1 IH]; [reflexivity|].
  destruct c; cbn [sent_bytes app]; rewrite IH; [|rewrite app_assoc|..];
    reflexivity.
Qed.

Lemma read_sizes_app t1 t2 : read_sizes (t1 ++ t2) = read_sizes t1 ++ read_sizes t2.
Proof.
  induction t1 as [|c t1 IH]; [reflexivity|].
  destruct c; cbn [read_sizes app]; rewrite IH; reflexivity.
Qed.

Lemma write_loop_done fuel f total sent :
  (total <= sent)%Z -> write_loop fuel f total sent = ret tt.
Proof.
  intros H. destruct fuel; cbn [write_loop];
    destruct (Z.ltb_spec sent total); (lia || reflexivity).
Qed.

Lemma write_loop_step fuel f total sent :
  (sent < total)%Z ->
  write_loop (S fuel) f total sent
  = (ser_write (firstn 256 f) ;;;
     p <- lift (percent (sent + Z.of_nat (length (firstn 256 f))) total) ;;
     emit (progress (c_int p)) ;;;
     write_loop fuel (skipn 256 f) total
       (sent + Z.of_nat (length (firstn 256 f)))).
Proof.
  intros H. cbn [write_loop f_read]. destruct (Z.ltb_spec sent total); [|lia].
  reflexivity.
Qed.

(** The loop over a file that holds exactly the bytes still to send. *)
Lemma write_loop_file total :
  forall fuel f sent w,
    reliable (faults w) -> (0 <= sent)%Z ->
    (sent + Z.of_nat (length f) = total)%Z -> (length f <= fuel)%nat ->
    exists w' ps,
      write_loop fuel f total sent w = (Val tt, w')
      /\ faults w' = faults w /\ rx w' = rx w /\ files w' = files w
      /\ sent_bytes (trace w') = sent_bytes (trace w) ++ f
      /\ read_sizes (trace w') = read_sizes (trace w)
      /\ signals w' = signals w ++ map progress ps
      /\ Forall (fun p => (0 <= p <= 100)%Z) ps.
Proof.
  induction fuel as [|fuel IH]; intros f sent w Hf H0 Hsum Hfuel.
  - assert (E : f = []) by (apply nil_length_inv; lia). subst f.
    cbn in Hsum. rewrite write_loop_done by lia.
    exists w, []. cbn [ret map]. rewrite !app_nil_r.
    repeat split; constructor.
  - destruct (Z.ltb_spec sent total) as [Hlt|Hge].
    + rewrite write_loop_step by exact Hlt.
      pose proof (take_drop 256 f) as Hsplit.
      pose proof (length_take f 256) as Hlen.
      pose proof (length_drop f 256) as Hlen'.
      set (chunk := firstn 256 f) in *. set (f' := skipn 256 f) in *.
      rewrite (bind_val _ _ _ _ _ (ser_write_ok _ _ Hf)).
      set (sent' := (sent + Z.of_nat (length chunk))%Z) in *.
      assert (Hs' : (0 <= sent' <= total)%Z) by (unfold sent'; lia).
      pose proof (percent_eq sent' total Hs' ltac:(lia)) as Hp.
      set (p := Qfloor _) in Hp. rewrite Hp.
      unfold emit, lift, ret. cbn [bind]. plain_percent Hp.
      match goal with |- context [write_loop fuel f' total sent' ?w1] =>
        destruct (IH f' sent' w1)
          as (w' & ps & Hrun & Hfa & Hrx & Hfiles & Hsent & Hreads & Hsig & Hrange)
      end; [exact Hf | lia | unfold sent'; lia | lia |].
      exists w', (p :: ps). split; [exact Hrun|].
      split; [exact Hfa|]. split; [exact Hrx|]. split; [exact Hfiles|].
      split; [rewrite Hsent; cbn [trace add_signal log];
              rewrite sent_bytes_app; cbn [sent_bytes];
              rewrite app_nil_r, <- app_assoc, Hsplit; reflexivity|].
      split; [rewrite Hreads; cbn [trace add_signal log];
              rewrite read_sizes_app; cbn [read_sizes];
              rewrite app_nil_r; reflexivity|].
      split; [rewrite Hsig; cbn [signals add_signal log map];
              rewrite <- app_assoc; reflexivity|].
      constructor; [exact (percent_range _ _ _ Hs' ltac:(lia) Hp) | exact Hrange].
    + assert (E : f = []) by (apply nil_length_inv; lia). subst f.
      rewrite write_loop_done by lia.
      exists w, []. cbn [ret map]. rewrite !app_nil_r.
      repeat split; constructor.
Qed.

(** The state in which the Write loop starts, once [r] has delivered
    the ack, and what follows the loop. *)
Lemma run_write_reliable (fuel : nat) (self : SerialThread)
    (f : nat -> option string) (r : list (list byte))
    (fs : gmap string (list byte))
    (d : string -> option exn) (n : Z) (path : string)
    (size data : list byte) :
  command self = "W" -> flash_size self = Some n -> file_path self = Some path ->
  fs !! path = Some data ->
  to_bytes4 n = inr size -> reliable f -> (recv 1 r).1 = [xaa] ->
  run fuel self (start f r fs d)
  = match write_loop fuel data n 0
            (World f (recv 1 r).2
               [Opened; Written [x57]; Written [x00; x00; x00; x00];
                Written size; Got 1 [xaa]] fs [] d) with
    | (Val _, w2) =>
        match ser_read 1 w2 with
        | (Val ack, w3) =>
            (Val tt,
             add_signal (if bytes_eqb ack ACK then finished
                         else error "Write failed") w3)
        | (Raise e, w3) =>
            (Val tt, add_signal (error ("Port error: " ++ exn_str e)) w3)
        | (Return, w3) => (Val tt, w3)
        | (Spin, w3) => (Spin, w3)
        end
    | (Return, w2) => (Val tt, w2)
    | (Raise e, w2) =>
        (Val tt, add_signal (error ("Port error: " ++ exn_str e)) w2)
    | (Spin, w2) => (Spin, w2)
    end.
Proof.
  intros Hc Hn Hp Hdata Hsz Hf Hack. unfold run, commands. rewrite Hc.
  cbn [String.eqb Ascii.eqb Bool.eqb]. cbv beta iota.
  unfold flash_size_bytes, total_of. rewrite Hn, Hsz, Hp. cbn [lift open_rb].
  repeat step. cbn [rx log start set_rx]. rewrite Hack.
  change (bytes_eqb [xaa] ACK) with true. cbn [negb].
  unfold bind at 1. cbn [files log set_rx start]. rewrite Hdata.
  unfold bind at 1.
  cbn [rx log start set_rx set_files files trace app faults signals].
  destruct (write_loop _ _ _ _ _) as [[a| |e|] w2]; try reflexivity.
  unfold bind. destruct (ser_read 1 w2) as [[ack| |e|] w3]; try reflexivity.
  destruct (bytes_eqb ack ACK); reflexivity.
Qed.

(** C5.  A Write of the [N] bytes of a file, on a port that raises
    nothing and acknowledges the request: the whole payload goes to the
    port, and the thread then reads one byte.  If that read returns the
    byte 0xAA the thread emits [finished]; if it returns any other byte, or
    nothing at all, it emits [error "Write failed"], although every byte
    of the payload was written. *)
Theorem write_final_ack (fuel : nat) (self : SerialThread)
    (f : nat -> option string) (r : list (list byte))
    (fs : gmap string (list byte))
    (d : string -> option exn) (N : Z) (path : string) (data : list byte) :
  command self = "W" -> flash_size self = Some N -> file_path self = Some path ->
  fs !! path = Some data -> Z.of_nat (length data) = N -> (N < 2 ^ 32)%Z ->
  reliable f -> (recv 1 r).1 = [xaa] -> (length data <= fuel)%nat ->
  let res := run fuel self (start f r fs d) in
  let final := (recv 1 (recv 1 r).2).1 in
  exists ps size,
    res.1 = Val tt
    /\ to_bytes4 N = inr size
    /\ sent_bytes (trace res.2) = [x57] ++ [x00; x00; x00; x00] ++ size ++ data
    /\ read_sizes (trace res.2) = [1; 1]%Z
    /\ (final = [xaa] -> signals res.2 = map progress ps ++ [finished])
    /\ (final <> [xaa] ->
          signals res.2 = map progress ps ++ [error "Write failed"]).
Proof.
  intros Hc Hn Hp Hdata Hlen Hlt Hf Hack Hfuel res final. subst res.
  destruct (to_bytes4_ok N ltac:(lia)) as (size & Hsize & _).
  rewrite (run_write_reliable fuel self f r fs d N path size data)
    by assumption.
  match goal with |- context [write_loop fuel data N 0 ?w1] =>
    destruct (write_loop_file N fuel data 0 w1)
      as (w' & ps & Hrun & Hfa & Hrx & Hfiles & Hsent & Hreads & Hsig & Hrange);
      [exact Hf | lia | lia | exact Hfuel |]
  end.
  rewrite Hrun.
  assert (Hf' : reliable (faults w')) by (rewrite Hfa; exact Hf).
  rewrite (ser_read_ok _ _ Hf'). rewrite Hrx. cbn [rx]. fold final.
  exists ps, size. unfold bytes_eqb, ACK.
  cbn [fst snd trace signals add_signal log set_rx].
  rewrite sent_bytes_app, read_sizes_app, Hsent, Hreads, Hsig.
  cbn [sent_bytes read_sizes trace signals app]. rewrite ?app_nil_r.
  split; [reflexivity|]. split; [exact Hsize|].
  split; [reflexivity|]. split; [reflexivity|].
  destruct (bool_decide_reflect (final = [xaa])) as [E|NE];
    split; intros; (congruence || reflexivity).
Qed.

Lemma write_final_ack_witness :
  let self := Build_SerialThread "COM3" "W" (Some "img.bin") (Some 3%Z) in
  let data := [x07; x08; x09] in
  let fs : gmap string (list byte) := {[ "img.bin" := data ]} in
  let res := run 3 self (start (fun _ => None) [[xaa]; [x00]] fs granted) in
  exists ps,
    res.1 = Val tt
    /\ sent_bytes (trace res.2)
       = [x57] ++ [x00; x00; x00; x00] ++ [x03; x00; x00; x00] ++ data
    /\ signals res.2 = map progress ps ++ [error "Write failed"].
Proof.
  intros self data fs res.
  assert (Hl : fs !! "img.bin" = Some data) by (vm_compute; reflexivity).
  destruct (write_final_ack 3 self (fun _ => None) [[xaa]; [x00]] fs granted 3
              "img.bin" data eq_refl eq_refl eq_refl Hl eq_refl
              ltac:(lia) (fun _ => eq_refl) eq_refl ltac:(cbn; lia))
    as (ps & size & H1 & H2 & H3 & _ & _ & H6).
  exists ps. subst res. split; [exact H1|]. split.
  - rewrite H3. vm_compute in H2. injection H2 as <-. reflexivity.
  - apply H6. vm_compute. discriminate.
Defined.

(* ================================================================== *)
(** * Decoding a JEDEC id *)
(* ================================================================== *)

Lemma truediv_mb cap :
  (0 <= cap < 2 ^ 32)%Z -> exists q, py_truediv cap (1024 * 1024) = inr q.
Proof.
  intros H. unfold py_truediv. change (1024 * 1024 =? 0)%Z with false.
  cbv iota. eexists.
  rewrite (not_overflows _ 4096); [reflexivity| | |reflexivity].
  - apply fl_nonneg.
    apply Qle_shift_div_l; [reflexivity|]. rewrite Qmult_0_l.
    change 0%Q with (inject_Z 0). rewrite <- Zle_Qle. lia.
  - apply Qle_trans with (PyFloat.fl 4096).
    + apply fl_mono.
      * apply Qle_shift_div_l; [reflexivity|]. rewrite Qmult_0_l.
        change 0%Q with (inject_Z 0). rewrite <- Zle_Qle. lia.
      * apply Qle_shift_div_r; [reflexivity|].
        change (4096 * inject_Z (1024 * 1024))%Q with (inject_Z (2 ^ 32)).
        rewrite <- Zle_Qle. lia.
    + vm_compute. discriminate.
Qed.

(** C9.  Decoding [EF 40 15] with a capacity of 0x00100000 bytes gives
    the manufacturer "Winbond" and the part number "W25Q40 (1MB)", built
    from the code 0x40 and its label "1MB" in the capacity table; and
    decoding three bytes whose first is not in the manufacturer table, with
    a capacity that fits 32 bits, raises nothing and gives the manufacturer
    "Unknown". *)
Theorem decode_winbond_and_unknown :
  (forall self, exists self',
      process_detect [xef; x40; x15] 0x00100000 self = (Val tt, self')
      /\ manufacturer self' = "Winbond"
      /\ DEVICE_CAPACITY !! 0x40%Z = Some "1MB"
      /\ part_number self'
         = ("W25Q" ++ format_X x40 ++ " (" ++ "1MB" ++ ")")%string
      /\ part_number self' = "W25Q40 (1MB)"
      /\ lbl_part self' = "W25Q40 (1MB)")
  /\ (forall self b0 b1 b2 cap,
        MANUFACTURERS !! byte_val b0 = None -> (0 <= cap < 2 ^ 32)%Z ->
        exists self',
          process_detect [b0; b1; b2] cap self = (Val tt, self')
          /\ manufacturer self' = "Unknown"
          /\ lbl_manufacturer self' = "Unknown").
Proof.
  split.
  - intros self. eexists. split; [reflexivity|]. repeat split; reflexivity.
  - intros self b0 b1 b2 cap Hm Hcap.
    destruct (truediv_mb cap Hcap) as (q & Hq).
    unfold process_detect, bind, update, get, index, ret, lift, raise.
    cbn -[py_truediv format_1f format_02X format_X DEVICE_CAPACITY
          MANUFACTURERS Z.ltb Z.eqb Z.mul].
    rewrite Hm.
    cbn -[py_truediv format_1f format_02X format_X DEVICE_CAPACITY
          MANUFACTURERS Z.ltb Z.eqb Z.mul].
    destruct (Z.eqb_spec cap 0) as [E0|N0];
      cbn -[py_truediv format_1f format_02X format_X DEVICE_CAPACITY
            MANUFACTURERS Z.ltb Z.eqb Z.mul];
      try rewrite Hq;
      cbn -[py_truediv format_1f format_02X format_X DEVICE_CAPACITY
            MANUFACTURERS Z.ltb Z.eqb Z.mul];
      (destruct (DEVICE_CAPACITY !! byte_val b2) as [label|];
       [eexists; (split; [reflexivity|]); split; reflexivity|]);
      cbn -[py_truediv format_1f format_02X format_X DEVICE_CAPACITY
            MANUFACTURERS Z.ltb Z.eqb Z.mul];
      (destruct (Z.ltb_spec 0 cap); [rewrite Hq|]);
      eexists; (split; [reflexivity|]); split; reflexivity.
Qed.

Lemma decode_winbond_and_unknown_witness :
  exists self',
    process_detect [x00; x20; x18] 0x01000000 init = (Val tt, self')
    /\ manufacturer self' = "Unknown"
    /\ lbl_manufacturer self' = "Unknown".
Proof.
  destruct decode_winbond_and_unknown as [_ H].
  apply (H init x00 x20 x18 0x01000000%Z).
  - vm_compute. reflexivity.
  - lia.
Defined.

(** Winbond, a device code that the capacity table lacks, and a capacity
    that is not 0: the part number is the fallback string, computed from
    the capacity. *)
Lemma winbond_fallback (self : FlashUtility) (b0 b1 b2 : byte) (cap : Z) :
  MANUFACTURERS !! byte_val b0 = Some "Winbond" ->
  DEVICE_CAPACITY !! byte_val b1 = None ->
  (0 < cap < 2 ^ 32)%Z ->
  exists self' mb,
    process_detect [b0; b1; b2] cap self = (Val tt, self')
    /\ py_truediv cap (1024 * 1024) = inr mb
    /\ part_number self' = ("Unknown Winbond (" ++ format_1f mb ++ "MB)")%string.
Proof.
  intros Hm Hd Hcap.
  destruct (truediv_mb cap ltac:(lia)) as (q & Hq).
  unfold process_detect, bind, update, get, index, ret, lift, raise.
  cbn -[py_truediv format_1f format_02X format_X DEVICE_CAPACITY
        MANUFACTURERS Z.ltb Z.eqb Z.mul].
  rewrite Hm.
  cbn -[py_truediv format_1f format_02X format_X DEVICE_CAPACITY
        MANUFACTURERS Z.ltb Z.eqb Z.mul].
  destruct (Z.eqb_spec cap 0) as [E0|N0]; [lia|].
  rewrite Hq.
  cbn -[py_truediv format_1f format_02X format_X DEVICE_CAPACITY
        MANUFACTURERS Z.ltb Z.eqb Z.mul].
  rewrite Hd.
  cbn -[py_truediv format_1f format_02X format_X DEVICE_CAPACITY
        MANUFACTURERS Z.ltb Z.eqb Z.mul].
  eexists; exists q. split; [reflexivity|]. split; reflexivity.
Qed.

(** With a capacity of 0 the same branch reads [mb] before any
    assignment to it, whatever the window and the third byte are. *)
Lemma winbond_unbound_mb (self : FlashUtility) (b0 b1 b2 : byte) :
  MANUFACTURERS !! byte_val b0 = Some "Winbond" ->
  DEVICE_CAPACITY !! byte_val b1 = None ->
  (process_detect [b0; b1; b2] 0 self).1 = Raise (UnboundLocalError "mb").
Proof.
  intros Hm Hd.
  unfold process_detect, bind, update, get, index, ret, lift, raise.
  cbn -[py_truediv format_1f format_02X format_X DEVICE_CAPACITY
        MANUFACTURERS Z.ltb Z.mul].
  rewrite Hm.
  cbn -[py_truediv format_1f format_02X format_X DEVICE_CAPACITY
        MANUFACTURERS Z.ltb Z.mul].
  rewrite Hd. reflexivity.
Qed.

(** C1.  Decoding [EF 30 13] (Winbond; the device code 0x30 is not in
    the capacity table) with a capacity of 0 raises [UnboundLocalError]
    on the local variable [mb]: the manufacturer and the labels set before
    the part number stay, the part number and the status line keep their
    old values.  The branch for the other manufacturers, on the same
    capacity and a code the table lacks, returns "Unknown (0.0MB)". *)
Theorem decode_winbond_zero_capacity_raises :
  process_detect [xef; x30; x13] 0 init
  = (Raise (UnboundLocalError "mb"),
     {| capacity := 0;
        manufacturer := "Winbond";
        part_number := "Unknown";
        jedec_id := [xef; x30; x13];
        lbl_manufacturer := "Winbond";
        lbl_capacity := "Unknown";
        lbl_part := "Unknown";
        lbl_jedec := "EF 30 13";
        status := "Disconnected" |})
  /\ MANUFACTURERS !! byte_val xef = Some "Winbond"
  /\ DEVICE_CAPACITY !! byte_val x30 = None
  /\ (exists self',
        process_detect [xc2; x30; x00] 0 init = (Val tt, self')
        /\ part_number self' = "Unknown (0.0MB)").
Proof.
  split; [vm_compute; reflexivity|].
  split; [vm_compute; reflexivity|].
  split; [vm_compute; reflexivity|].
  eexists. split; vm_compute; reflexivity.
Qed.

(* ================================================================== *)
(** * Exceptions on the port *)
(* ================================================================== *)

Section Faults.

Lemma hushed_refl w : hushed w w.
Proof. exists []. cbn. rewrite app_nil_r. reflexivity. Qed.

Lemma hushed_trans w1 w2 w3 : hushed w1 w2 -> hushed w2 w3 -> hushed w1 w3.
Proof.
  intros [ps1 H1] [ps2 H2]. exists (ps1 ++ ps2).
  rewrite H2, H1, map_app, app_assoc. reflexivity.
Qed.

Lemma traced_refl {A} w (r : outcome A) : traced w r w.
Proof.
  exists []. split; [rewrite app_nil_r; reflexivity|].
  intros i c H. rewrite lookup_nil in H. discriminate.
Qed.

(** A statement that ended with a value, followed by another one. *)
Lemma traced_seq {A B} w (a : A) w1 (r : outcome B) w2 :
  faults w1 = faults w ->
  traced w (Val a) w1 -> traced w1 r w2 -> traced w r w2.
Proof.
  intros Hf (c1 & E1 & H1) (c2 & E2 & H2). exists (c1 ++ c2).
  split; [rewrite E2, E1, app_assoc; reflexivity|].
  intros i c Hi. destruct (lookup_app_Some c1 c2 i c) as [Hcases _].
  destruct (Hcases Hi) as [Hl | [Hge Hr]].
  - specialize (H1 i c Hl).
    destruct (faults w (length (trace w) + i)) as [m|]; [|exact H1].
    destruct H1 as (_ & Habs & _). discriminate.
  - specialize (H2 _ c Hr). rewrite Hf, E1, length_app in H2.
    replace (length (trace w) + length c1 + (i - length c1))%nat
      with (length (trace w) + i)%nat in H2 by lia.
    destruct (faults w (length (trace w) + i)) as [m|]; [|exact H2].
    destruct H2 as (Hc & Hr' & Hlen). split; [exact Hc|].
    split; [exact Hr'|]. rewrite length_app. lia.
Qed.

(** The outcome matters to [traced] only through what it raised. *)
Lemma traced_raised {A B} w (r : outcome A) (r' : outcome B) w' :
  raised r' = raised r -> traced w r w' -> traced w r' w'.
Proof.
  intros E (c & Ec & H). exists c. split; [exact Ec|].
  intros i x Hi. specialize (H i x Hi). rewrite E. exact H.
Qed.

Lemma traced_same {A} w (r : outcome A) w' :
  trace w' = trace w -> traced w r w'.
Proof.
  intros E. exists []. split; [rewrite app_nil_r; exact E|].
  intros i c H. rewrite lookup_nil in H. discriminate.
Qed.

Lemma hushed_same w w' : signals w' = signals w -> hushed w w'.
Proof. intros E. exists []. cbn. rewrite app_nil_r. exact E. Qed.

(** ** Quiet statements *)

Lemma quiet_ret {A} (a : A) : quiet (ret a).
Proof.
  intros w r w' [= <- <-].
  split; [reflexivity|]. split; [apply traced_refl | apply hushed_refl].
Qed.

Lemma quiet_raise {A} e : quiet (@raise world A e).
Proof.
  intros w r w' [= <- <-].
  split; [reflexivity|]. split; [apply traced_refl | apply hushed_refl].
Qed.

Lemma quiet_spin {A} : quiet (@spin world A).
Proof.
  intros w r w' [= <- <-].
  split; [reflexivity|]. split; [apply traced_refl | apply hushed_refl].
Qed.

Lemma quiet_lift {A} (x : exn + A) : quiet (lift x).
Proof. destruct x; [apply quiet_raise | apply quiet_ret]. Qed.

Lemma quiet_bind {A B} (m : M A) (f : A -> M B) :
  quiet m -> (forall a, quiet (f a)) -> quiet (bind m f).
Proof.
  intros Hm Hf w r w' H. unfold bind in H.
  destruct (m w) as [r1 w1] eqn:E1.
  destruct (Hm w r1 w1 E1) as (F1 & T1 & S1).
  destruct r1 as [a| |e|].
  - destruct (Hf a w1 r w' H) as (F2 & T2 & S2).
    split; [congruence|].
    split; [exact (traced_seq w a w1 r w' F1 T1 T2)
           | exact (hushed_trans _ _ _ S1 S2)].
  - injection H as <- <-. split; [exact F1|].
    split; [exact (traced_raised _ _ _ _ eq_refl T1) | exact S1].
  - injection H as <- <-. split; [exact F1|].
    split; [exact (traced_raised _ _ _ _ eq_refl T1) | exact S1].
  - injection H as <- <-. split; [exact F1|].
    split; [exact (traced_raised _ _ _ _ eq_refl T1) | exact S1].
Qed.

(** A call on the port whose body touches neither the oracle, nor the
    trace, nor the signals. *)
Lemma quiet_port_call {A} (body : world -> A * call * world) :
  (forall w, faults (body w).2 = faults w
             /\ trace (body w).2 = trace w
             /\ signals (body w).2 = signals w
             /\ is_fault (body w).1.2 = false) ->
  quiet (port_call body).
Proof.
  intros Hb w r w' H. unfold port_call in H.
  destruct (faults w (length (trace w))) as [msg|] eqn:Ef.
  - injection H as <- <-.
    split; [reflexivity|]. split; [|apply hushed_same; reflexivity].
    exists [Faulted msg]. split; [reflexivity|].
    intros [|i] c Hi; [|destruct i; discriminate].
    injection Hi as <-. rewrite Nat.add_0_r, Ef. repeat split.
  - destruct (Hb w) as (Hf & Ht & Hs & Hc).
    destruct (body w) as [[a c] w1]. cbn [fst snd] in *.
    injection H as <- <-.
    split; [exact Hf|]. split; [|apply hushed_same; exact Hs].
    exists [c]. split; [cbn [trace log]; rewrite Ht; reflexivity|].
    intros [|i] x Hi; [|destruct i; discriminate].
    injection Hi as <-. rewrite Nat.add_0_r, Ef. exact Hc.
Qed.

Lemma quiet_ser_open : quiet ser_open.
Proof. apply quiet_port_call. intros w. repeat split. Qed.

Lemma quiet_ser_write data : quiet (ser_write data).
Proof. apply quiet_port_call. intros w. repeat split. Qed.

Lemma quiet_ser_read size : quiet (ser_read size).
Proof.
  apply quiet_port_call. intros w. destruct (recv size (rx w)).
  repeat split.
Qed.

Lemma quiet_emit_progress p : quiet (emit (progress p)).
Proof.
  intros w r w' [= <- <-]. split; [reflexivity|].
  split; [apply traced_same; reflexivity|]. exists [p]. reflexivity.
Qed.

Lemma quiet_open_wb path : quiet (open_wb path).
Proof.
  destruct path as [p|]; [|apply quiet_raise].
  intros w r w' H. cbn in H.
  destruct (denied w p); injection H as <- <-;
    (split; [reflexivity|]);
    (split; [apply traced_same | apply hushed_same]; reflexivity).
Qed.

Lemma quiet_open_rb path : quiet (open_rb path).
Proof.
  destruct path as [p|]; [|apply quiet_raise].
  intros w r w' H. cbn in H.
  destruct (files w !! p); injection H as <- <-;
    (split; [reflexivity|]);
    (split; [apply traced_refl | apply hushed_refl]).
Qed.

Lemma quiet_f_write p chunk : quiet (f_write p chunk).
Proof.
  intros w r w' [= <- <-]. split; [reflexivity|].
  split; [apply traced_same | apply hushed_same]; reflexivity.
Qed.

Lemma quiet_flash_size_bytes self : quiet (flash_size_bytes self).
Proof.
  unfold flash_size_bytes. destruct (flash_size self);
    [apply quiet_lift | apply quiet_raise].
Qed.

Lemma quiet_read_loop fuel path total :
  forall received, quiet (read_loop fuel path total received).
Proof.
  induction fuel as [|fuel IH]; intros received; cbn [read_loop];
    destruct (received <? total)%Z;
    try apply quiet_ret; try apply quiet_spin.
  apply quiet_bind; [apply quiet_ser_read|]. intros chunk.
  apply quiet_bind; [apply quiet_f_write|]. intros _.
  apply quiet_bind; [apply quiet_lift|]. intros p.
  apply quiet_bind; [apply quiet_emit_progress|]. intros _. apply IH.
Qed.

Lemma quiet_write_loop fuel total :
  forall f sent, quiet (write_loop fuel f total sent).
Proof.
  induction fuel as [|fuel IH]; intros f sent; cbn [write_loop];
    destruct (sent <? total)%Z;
    try apply quiet_ret; try apply quiet_spin.
  cbn [f_read].
  apply quiet_bind; [apply quiet_ser_write|]. intros _.
  apply quiet_bind; [apply quiet_lift|]. intros p.
  apply quiet_bind; [apply quiet_emit_progress|]. intros _. apply IH.
Qed.

(** ** The end of a command *)

Lemma closing_emit s : closing (emit s).
Proof. intros w r w' [= <- <-]. repeat split. Qed.

Lemma closing_return {A} : closing (@return_ world A).
Proof. intros w r w' [= <- <-]. repeat split. Qed.

Lemma closing_bind {A B} (m : M A) (f : A -> M B) :
  closing m -> (forall a, closing (f a)) -> closing (bind m f).
Proof.
  intros Hm Hf w r w' H. unfold bind in H.
  destruct (m w) as [r1 w1] eqn:E1.
  destruct (Hm w r1 w1 E1) as (F1 & T1 & R1).
  destruct r1 as [a| |e|]; try discriminate.
  - destruct (Hf a w1 r w' H) as (F2 & T2 & R2).
    repeat split; congruence.
  - injection H as <- <-. repeat split; assumption.
  - injection H as <- <-. repeat split; assumption.
Qed.

Lemma guarded_closing {A} (m : M A) : closing m -> guarded m.
Proof.
  intros Hm w r w' H. destruct (Hm w r w' H) as (F & T & R).
  split; [exact F|]. split; [apply traced_same; exact T|].
  intros e He. congruence.
Qed.

Lemma guarded_quiet {A} (m : M A) : quiet m -> guarded m.
Proof.
  intros Hm w r w' H. destruct (Hm w r w' H) as (F & T & S).
  split; [exact F|]. split; [exact T|]. intros; exact S.
Qed.

Lemma guarded_bind {A B} (m : M A) (f : A -> M B) :
  quiet m -> (forall a, guarded (f a)) -> guarded (bind m f).
Proof.
  intros Hm Hf w r w' H. unfold bind in H.
  destruct (m w) as [r1 w1] eqn:E1.
  destruct (Hm w r1 w1 E1) as (F1 & T1 & S1).
  destruct r1 as [a| |e|].
  - destruct (Hf a w1 r w' H) as (F2 & T2 & S2).
    split; [congruence|].
    split; [exact (traced_seq w a w1 r w' F1 T1 T2)|].
    intros e He. exact (hushed_trans _ _ _ S1 (S2 e He)).
  - injection H as <- <-. split; [exact F1|].
    split; [exact (traced_raised _ _ _ _ eq_refl T1) | intros; exact S1].
  - injection H as <- <-. split; [exact F1|].
    split; [exact (traced_raised _ _ _ _ eq_refl T1) | intros; exact S1].
  - injection H as <- <-. split; [exact F1|].
    split; [exact (traced_raised _ _ _ _ eq_refl T1) | intros; exact S1].
Qed.

End Faults.

Create HintDb engine.

#[local] Hint Resolve quiet_ret quiet_raise quiet_spin quiet_lift
  quiet_ser_open quiet_ser_write quiet_ser_read quiet_emit_progress
  quiet_open_wb quiet_open_rb quiet_f_write quiet_flash_size_bytes
  quiet_read_loop quiet_write_loop closing_emit closing_return : engine.

Ltac discharge_guarded :=
  repeat first
    [ apply guarded_bind; [solve [auto with engine] | intros ?]
    | match goal with |- guarded (if ?c then _ else _) => destruct c end
    | apply guarded_closing;
      first [ apply closing_emit
            | apply closing_bind; [apply closing_emit | intros ?; apply closing_return] ]
    | apply guarded_quiet; solve [auto with engine] ].

(** Every command is guarded. *)
Lemma guarded_commands fuel self : guarded (ser_open ;;; commands fuel self).
Proof.
  apply guarded_bind; [apply quiet_ser_open | intros _].
  unfold commands.
  destruct (String.eqb (command self) "D"); [discharge_guarded|].
  destruct (String.eqb (command self) "R"); [discharge_guarded|].
  destruct (String.eqb (command self) "W"); [discharge_guarded|].
  destruct (String.eqb (command self) "E"); [discharge_guarded|].
  apply guarded_quiet, quiet_ret.
Qed.

Lemma run_trace fuel self w :
  trace (run fuel self w).2 = trace ((ser_open;;; commands fuel self) w).2.
Proof.
  unfold run. destruct ((ser_open;;; commands fuel self) w) as [[a| |e|] w1];
    reflexivity.
Qed.

(** C8.  Whatever the command, the input and the files: when the [k]-th
    call the thread makes on the port (the opening of the port is call 0)
    raises an exception with message [msg], that call is the last one the
    thread makes, and the thread ends having emitted only [progress]
    signals followed by [error ("Port error: " ++ msg)]: neither
    [finished] nor [detect_result]. *)
Theorem port_error_aborts (fuel : nat) (self : SerialThread)
    (f : nat -> option string) (r : list (list byte))
    (fs : gmap string (list byte))
    (d : string -> option exn) (k : nat) (msg : string) :
  f k = Some msg ->
  let res := run fuel self (start f r fs d) in
  (k < length (trace res.2))%nat ->
  length (trace res.2) = S k
  /\ last (trace res.2) = Some (Faulted msg)
  /\ res.1 = Val tt
  /\ exists ps,
       signals res.2 = map progress ps ++ [error ("Port error: " ++ msg)%string].
Proof.
  intros Hk res Hlen. subst res. rewrite run_trace in Hlen |- *.
  unfold run.
  destruct ((ser_open;;; commands fuel self) (start f r fs d)) as [r0 w1] eqn:E.
  destruct (guarded_commands fuel self _ _ _ E) as (_ & (calls & Ht & Hc) & Hs).
  cbn [start trace faults app snd] in Ht, Hc, Hlen |- *.
  rewrite Ht in Hlen |- *.
  destruct (lookup_lt_is_Some_2 calls k Hlen) as [c Hck].
  specialize (Hc k c Hck). cbn [length Nat.add] in Hc. rewrite Hk in Hc.
  destruct Hc as (-> & Hr & Hlast).
  destruct r0 as [a| |e|]; try discriminate. injection Hr as ->.
  destruct (Hs _ eq_refl) as [ps Hps]. cbn [start signals app] in Hps.
  split; [lia|]. split; [rewrite last_lookup, <- Hlast; exact Hck|].
  split; [reflexivity|]. exists ps.
  cbn [emit snd signals add_signal exn_str SerialException]. rewrite Hps.
  reflexivity.
Qed.

Lemma port_error_aborts_witness :
  let self := Build_SerialThread "COM3" "R" (Some "dump.bin") (Some 4%Z) in
  let f := fun i => if (i =? 6)%nat then Some "device disconnected" else None in
  let res := run 9 self (start f [[xaa]; [x01; x02]; [x03; x04]] ∅ granted) in
  length (trace res.2) = 7%nat
  /\ last (trace res.2) = Some (Faulted "device disconnected")
  /\ res.1 = Val tt
  /\ exists ps,
       signals res.2
       = map progress ps ++ [error "Port error: device disconnected"].
Proof.
  intros self f res.
  apply (port_error_aborts 9 self f [[xaa]; [x01; x02]; [x03; x04]] ∅ granted 6
           "device disconnected" eq_refl).
  vm_compute. lia.
Defined.

(* ================================================================== *)
(** * Bytes transferred *)
(* ================================================================== *)

Lemma port_call_cases {A} (body : world -> A * call * world) w :
  (exists msg, faults w (length (trace w)) = Some msg
               /\ port_call body w
                  = (Raise (SerialException msg), log (Faulted msg) w))
  \/ (faults w (length (trace w)) = None
      /\ port_call body w = (Val (body w).1.1, log (body w).1.2 (body w).2)).
Proof.
  unfold port_call. destruct (faults w (length (trace w))) as [msg|].
  - left. exists msg. split; reflexivity.
  - right. split; [reflexivity|]. destruct (body w) as [[a c] w1]. reflexivity.
Qed.

(** On any port, the Read loop asks for no more than what is missing, so
    the file never grows beyond [total], and holds exactly [total] bytes
    when the loop ends. *)
Lemma read_loop_sink path total :
  forall fuel received w r w' sink,
    read_loop fuel path total received w = (r, w') ->
    files w !! path = Some sink ->
    Z.of_nat (length sink) = received -> (received <= total)%Z ->
    exists sink',
      files w' !! path = Some sink'
      /\ (Z.of_nat (length sink') <= total)%Z
      /\ (r = Val tt -> Z.of_nat (length sink') = total).
Proof.
  induction fuel as [|fuel IH]; intros received w r w' sink Hrun Hsink Hlen Hle.
  - cbn [read_loop] in Hrun. destruct (Z.ltb_spec received total);
      injection Hrun as <- <-; exists sink;
      (split; [exact Hsink|]); (split; [lia|]); intros; (lia || discriminate).
  - destruct (Z.ltb_spec received total) as [Hlt|Hge].
    + rewrite read_loop_step in Hrun by exact Hlt. unfold bind at 1 in Hrun.
      unfold ser_read in Hrun.
      destruct (port_call_cases
                  (fun w => let '(got, r) := recv (Z.min 4096 (total - received)) (rx w)
                            in (got, Got (Z.min 4096 (total - received)) got,
                                set_rx r w)) w)
        as [(msg & _ & E) | (_ & E)]; rewrite E in Hrun; clear E.
      * injection Hrun as <- <-. exists sink. cbn [files log].
        split; [exact Hsink|]. split; [lia|]. discriminate.
      * pose proof (recv_length (Z.min 4096 (total - received)) (rx w)) as Hc.
        destruct (recv (Z.min 4096 (total - received)) (rx w)) as [chunk rx'].
        cbn [fst snd] in Hrun, Hc.
        unfold f_write, bind at 1 in Hrun.
        unfold bind at 1 in Hrun.
        destruct (percent (received + Z.of_nat (length chunk)) total) as [e|p];
          cbn [lift raise ret] in Hrun.
        -- injection Hrun as <- <-. exists (sink ++ chunk).
           cbn [files set_files log set_rx].
           rewrite lookup_alter_eq, Hsink. split; [reflexivity|].
           rewrite length_app. split; [lia | discriminate].
        -- unfold emit, bind at 1 in Hrun.
           eapply (IH _ _ _ _ (sink ++ chunk) Hrun).
           ++ cbn [files set_files log set_rx add_signal].
              rewrite lookup_alter_eq, Hsink. reflexivity.
           ++ rewrite length_app. lia.
           ++ lia.
    + rewrite read_loop_done in Hrun by lia. injection Hrun as <- <-.
      exists sink. split; [exact Hsink|]. split; [lia|]. intros; lia.
Qed.

(** On any port and with any file, what the Write loop sends is the head
    of the file, in chunks of at most 256 bytes, until [sent] reaches
    [total]: the last chunk can go beyond [total], by less than 256. *)
Lemma write_loop_payload total :
  forall fuel f sent w r w',
    write_loop fuel f total sent w = (r, w') ->
    exists payload,
      sent_bytes (trace w') = sent_bytes (trace w) ++ payload
      /\ payload = firstn (length payload) f
      /\ (sent + Z.of_nat (length payload) <= Z.max sent (total + 255))%Z
      /\ (r = Val tt -> (total <= sent + Z.of_nat (length payload))%Z).
Proof.
  induction fuel as [|fuel IH]; intros f sent w r w' Hrun.
  - cbn [write_loop] in Hrun. destruct (Z.ltb_spec sent total);
      injection Hrun as <- <-; exists []; rewrite app_nil_r;
      (split; [reflexivity|]); (split; [reflexivity|]); cbn [length];
      (split; [lia|]); intros; (lia || discriminate).
  - destruct (Z.ltb_spec sent total) as [Hlt|Hge].
    + rewrite write_loop_step in Hrun by exact Hlt. unfold bind at 1 in Hrun.
      unfold ser_write in Hrun.
      pose proof (length_take f 256) as Hlen.
      set (chunk := firstn 256 f) in *.
      destruct (port_call_cases (fun w => (tt, Written chunk, w)) w)
        as [(msg & _ & E) | (_ & E)]; rewrite E in Hrun; clear E.
      * injection Hrun as <- <-. exists []. cbn [trace log].
        rewrite sent_bytes_app. cbn [sent_bytes length].
        split; [reflexivity|]. split; [reflexivity|]. split; [lia|].
        discriminate.
      * cbn [fst snd] in Hrun. unfold bind at 1 in Hrun.
        destruct (percent (sent + Z.of_nat (length chunk)) total) as [e|p];
          cbn [lift raise ret] in Hrun.
        -- injection Hrun as <- <-. exists chunk. cbn [trace log].
           rewrite sent_bytes_app. cbn [sent_bytes]. rewrite app_nil_r.
           split; [reflexivity|].
           split; [unfold chunk; rewrite length_take;
                   destruct (Nat.min_spec 256 (length f)) as [[? ->]|[? ->]];
                   [reflexivity | rewrite !take_ge by lia; reflexivity]|].
           split; [lia | discriminate].
        -- unfold emit, bind at 1 in Hrun.
           destruct (IH _ _ _ _ _ Hrun) as (payload & Hs & Hp & Hub & Hlb).
           exists (chunk ++ payload).
           cbn [trace add_signal log] in Hs. rewrite sent_bytes_app in Hs.
           cbn [sent_bytes] in Hs. rewrite app_nil_r, <- app_assoc in Hs.
           split; [exact Hs|]. rewrite length_app.
           split.
           ++ rewrite <- (take_drop 256 f) at 1. fold chunk.
              rewrite take_app_add' by reflexivity. f_equal. exact Hp.
           ++ split.
              ** destruct (Z.ltb_spec (sent + Z.of_nat (length chunk)) total);
                   lia.
              ** intros Hr. specialize (Hlb Hr). lia.
    + rewrite write_loop_done in Hrun by lia. injection Hrun as <- <-.
      exists []. rewrite app_nil_r. cbn [length].
      split; [reflexivity|]. split; [reflexivity|].
      split; [lia|]. intros; lia.
Qed.

Lemma finished_not_progress ps tail :
  In finished (map progress ps ++ tail) -> In finished tail.
Proof.
  induction ps as [|p ps IH]; cbn; [tauto|]. intros [H|H]; [discriminate|auto].
Qed.

Lemma to_bytes4_range n size : to_bytes4 n = inr size -> (0 <= n < 2 ^ 32)%Z.
Proof.
  unfold to_bytes4. destruct (Z.ltb_spec n 0); [discriminate|].
  destruct (Z.leb_spec (2 ^ 32) n); [discriminate|]. lia.
Qed.

Lemma open_wb_some p w :
  denied w p = None ->
  open_wb (Some p) w = (Val p, set_files (<[p := []]> (files w)) w).
Proof. intros H. cbn [open_wb]. rewrite H. reflexivity. Qed.

Lemma open_wb_denied p w e :
  denied w p = Some e -> open_wb (Some p) w = (Raise e, w).
Proof. intros H. cbn [open_wb]. rewrite H. reflexivity. Qed.

Lemma rx_log c w : rx (log c w) = rx w.
Proof. reflexivity. Qed.

(** The next call on the port in hypothesis [H]: it raises, or it runs. *)
Ltac port_case H :=
  unfold ser_open, ser_write, ser_read in H;
  match type of H with
  | context [bind (port_call ?b) ?k ?w] =>
      let E := fresh "E" in
      destruct (port_call_cases b w) as [(? & _ & E) | (_ & E)];
      [ rewrite (bind_raise _ _ _ _ _ E) in H
      | rewrite (bind_val _ _ _ _ _ E) in H ];
      clear E; cbn [fst snd] in H
  end.

(** The opening of the dump file in hypothesis [H]: it is refused, or the
    file is created. *)
Ltac open_case H :=
  match type of H with
  | context [bind (open_wb (Some ?p)) _ ?w] =>
      let e := fresh "e" in
      let Hden := fresh "Hden" in
      destruct (denied w p) as [e|] eqn:Hden;
      [ rewrite (bind_raise _ _ _ _ _ (open_wb_denied p w e Hden)) in H
      | rewrite (bind_val _ _ _ _ _ (open_wb_some p w Hden)) in H ]
  end.

(** A branch that ended on an [error] has not emitted [finished]. *)
Ltac no_success H :=
  cbn [emit fst snd signals add_signal log set_rx set_files start app In] in H;
  repeat match type of H with _ \/ _ => destruct H as [H|H] end;
  solve [discriminate H | contradiction H].

(** A Read that emitted [finished] went through its loop. *)
Lemma run_read_success (fuel : nat) (self : SerialThread)
    (f : nat -> option string) (r : list (list byte))
    (fs : gmap string (list byte))
    (d : string -> option exn) (N : Z) (path : string) :
  command self = "R" -> flash_size self = Some N -> file_path self = Some path ->
  In finished (signals (run fuel self (start f r fs d)).2) ->
  exists w1 w2,
    files w1 !! path = Some []
    /\ (0 <= N < 2 ^ 32)%Z
    /\ read_loop fuel path N 0 w1 = (Val tt, w2)
    /\ files (run fuel self (start f r fs d)).2 = files w2.
Proof.
  intros Hc Hn Hp. unfold run, commands. rewrite Hc.
  cbn [String.eqb Ascii.eqb Bool.eqb]. cbv beta iota.
  unfold flash_size_bytes, total_of. rewrite Hn, Hp.
  destruct ((ser_open;;; _) (start f r fs d)) as [r0 w0] eqn:E. intros H.
  port_case E; [injection E as <- <-; no_success H|].
  port_case E; [injection E as <- <-; no_success H|].
  port_case E; [injection E as <- <-; no_success H|].
  destruct (to_bytes4 N) as [e|size] eqn:Hsz; cbn [lift] in E.
  { unfold bind at 1, raise in E. injection E as <- <-. no_success H. }
  unfold bind at 1, ret in E.
  port_case E; [injection E as <- <-; no_success H|].
  port_case E; [injection E as <- <-; no_success H|].
  rewrite !rx_log in E. cbn [rx start] in E.
  destruct (recv 1 r) as [ack rx1]. cbn [fst snd] in E.
  destruct (bytes_eqb ack ACK); cbn [negb] in E.
  2: { cbv [bind emit return_] in E. injection E as <- <-. no_success H. }
  open_case E; [injection E as <- <-; no_success H|]. unfold bind at 1 in E.
  match type of E with context [read_loop fuel path N 0 ?w1] =>
    destruct (read_loop fuel path N 0 w1) as [r2 w2] eqn:Hloop;
    destruct (quiet_read_loop fuel path N 0 _ _ _ Hloop) as (_ & _ & ps & Hps);
    exists w1, w2
  end.
  cbn [signals log set_rx set_files start app] in Hps.
  destruct r2 as [[]| |e|]; injection E as <- <-;
    cbn [emit fst snd signals add_signal] in H; rewrite Hps in H.
  - split; [cbn [files set_files]; apply lookup_insert_eq|].
    split; [exact (to_bytes4_range _ _ Hsz)|].
    split; [exact Hloop | reflexivity].
  - rewrite <- (app_nil_r (map progress ps)) in H.
    apply finished_not_progress in H. destruct H.
  - apply finished_not_progress in H. no_success H.
  - rewrite <- (app_nil_r (map progress ps)) in H.
    apply finished_not_progress in H. destruct H.
Qed.

Lemma open_rb_some p w data :
  files w !! p = Some data -> open_rb (Some p) w = (Val data, w).
Proof. intros H. cbn [open_rb]. rewrite H. reflexivity. Qed.

Lemma open_rb_missing p w :
  files w !! p = None -> open_rb (Some p) w = (Raise (FileNotFoundError p), w).
Proof. intros H. cbn [open_rb]. rewrite H. reflexivity. Qed.

(** A Write that emitted [finished] went through its loop and got the
    final ack. *)
Lemma run_write_success (fuel : nat) (self : SerialThread)
    (f : nat -> option string) (r : list (list byte))
    (fs : gmap string (list byte))
    (d : string -> option exn) (N : Z) (path : string) :
  command self = "W" -> flash_size self = Some N -> file_path self = Some path ->
  In finished (signals (run fuel self (start f r fs d)).2) ->
  exists size data w1 w2,
    to_bytes4 N = inr size
    /\ fs !! path = Some data
    /\ sent_bytes (trace w1) = [x57] ++ [x00; x00; x00; x00] ++ size
    /\ write_loop fuel data N 0 w1 = (Val tt, w2)
    /\ sent_bytes (trace (run fuel self (start f r fs d)).2)
       = sent_bytes (trace w2).
Proof.
  intros Hc Hn Hp. rewrite run_trace. unfold run, commands. rewrite Hc.
  cbn [String.eqb Ascii.eqb Bool.eqb]. cbv beta iota.
  unfold flash_size_bytes, total_of. rewrite Hn, Hp.
  destruct ((ser_open;;; _) (start f r fs d)) as [r0 w0] eqn:E. intros H.
  port_case E; [injection E as <- <-; no_success H|].
  port_case E; [injection E as <- <-; no_success H|].
  port_case E; [injection E as <- <-; no_success H|].
  destruct (to_bytes4 N) as [e|size] eqn:Hsz; cbn [lift] in E.
  { unfold bind at 1, raise in E. injection E as <- <-. no_success H. }
  unfold bind at 1, ret in E.
  port_case E; [injection E as <- <-; no_success H|].
  port_case E; [injection E as <- <-; no_success H|].
  rewrite !rx_log in E. cbn [rx start] in E.
  destruct (recv 1 r) as [ack rx1]. cbn [fst snd] in E.
  destruct (bytes_eqb ack ACK); cbn [negb] in E.
  2: { cbv [bind emit return_] in E. injection E as <- <-. no_success H. }
  destruct (fs !! path) as [data|] eqn:Hdata.
  2: { match type of E with context [bind (open_rb (Some path)) _ ?w] =>
         rewrite (bind_raise _ _ _ _ _ (open_rb_missing path w Hdata)) in E
       end.
       injection E as <- <-. no_success H. }
  match type of E with context [bind (open_rb (Some path)) _ ?w] =>
    rewrite (bind_val _ _ _ _ _ (open_rb_some path w data Hdata)) in E
  end.
  unfold bind at 1 in E.
  match type of E with context [write_loop fuel data N 0 ?w1] =>
    destruct (write_loop fuel data N 0 w1) as [r2 w2] eqn:Hloop;
    destruct (quiet_write_loop fuel N data 0 _ _ _ Hloop) as (_ & _ & ps & Hps);
    exists size, data, w1, w2
  end.
  cbn [signals log set_rx set_files start app] in Hps.
  destruct r2 as [[]| |e|].
  - split; [reflexivity|]. split; [reflexivity|].
    split; [cbn [trace log set_rx start app sent_bytes];
            rewrite app_nil_r; reflexivity|].
    split; [exact Hloop|].
    port_case E.
    + injection E as <- <-. cbn [snd trace log].
      rewrite sent_bytes_app. cbn [sent_bytes]. apply app_nil_r.
    + destruct (recv 1 (rx w2)) as [ack2 rx2]. cbn [fst snd] in E.
      destruct (bytes_eqb ack2 ACK); cbv [emit] in E; injection E as <- <-;
        cbn [snd trace log add_signal set_rx];
        rewrite sent_bytes_app; cbn [sent_bytes]; apply app_nil_r.
  - injection E as <- <-.
    cbn [emit fst snd signals add_signal] in H. rewrite Hps in H.
    rewrite <- (app_nil_r (map progress ps)) in H.
    apply finished_not_progress in H. destruct H.
  - injection E as <- <-.
    cbn [emit fst snd signals add_signal] in H. rewrite Hps in H.
    apply finished_not_progress in H. no_success H.
  - injection E as <- <-.
    cbn [emit fst snd signals add_signal] in H. rewrite Hps in H.
    rewrite <- (app_nil_r (map progress ps)) in H.
    apply finished_not_progress in H. destruct H.
Qed.

(** C2, as the code has it.  A Read that ends with [finished] has written
    exactly [N] bytes to the dump file, whatever the port delivered.  A
    Write that ends with [finished] has sent, after the request, the head
    of the file in chunks of up to 256 bytes: at least [N] bytes and fewer
    than [N + 256], and exactly the [N] bytes of the file when the file
    holds [N] bytes, which is how the window calls it. *)
Theorem transfer_lengths (fuel : nat) (self : SerialThread)
    (f : nat -> option string) (r : list (list byte))
    (fs : gmap string (list byte))
    (d : string -> option exn) (N : Z) (path : string) :
  flash_size self = Some N -> file_path self = Some path ->
  let res := run fuel self (start f r fs d) in
  In finished (signals res.2) ->
  (command self = "R" ->
     exists sink,
       files res.2 !! path = Some sink /\ Z.of_nat (length sink) = N)
  /\ (command self = "W" ->
        exists size data payload,
          to_bytes4 N = inr size
          /\ fs !! path = Some data
          /\ sent_bytes (trace res.2)
             = [x57] ++ [x00; x00; x00; x00] ++ size ++ payload
          /\ payload = firstn (length payload) data
          /\ (N <= Z.of_nat (length payload) < N + 256)%Z
          /\ (Z.of_nat (length data) = N -> payload = data)).
Proof.
  intros Hn Hp res Hfin. subst res. split; intros Hc.
  - destruct (run_read_success fuel self f r fs d N path Hc Hn Hp Hfin)
      as (w1 & w2 & Hfile & Hrange & Hloop & Hfiles).
    destruct (read_loop_sink path N fuel 0 w1 _ w2 [] Hloop Hfile eq_refl
                ltac:(lia)) as (sink & Hs & _ & Hlen).
    exists sink. rewrite Hfiles. split; [exact Hs | exact (Hlen eq_refl)].
  - destruct (run_write_success fuel self f r fs d N path Hc Hn Hp Hfin)
      as (size & data & w1 & w2 & Hsz & Hdata & Hreq & Hloop & Hsent).
    destruct (write_loop_payload N fuel data 0 w1 _ w2 Hloop)
      as (payload & Hpay & Hprefix & Hub & Hlb).
    pose proof (to_bytes4_range _ _ Hsz) as Hrange.
    specialize (Hlb eq_refl).
    exists size, data, payload.
    split; [exact Hsz|]. split; [exact Hdata|].
    split; [rewrite Hsent, Hpay, Hreq, <- !app_assoc; reflexivity|].
    split; [exact Hprefix|]. split; [lia|].
    intros Hlen. rewrite Hprefix. apply take_ge. lia.
Qed.

Lemma transfer_lengths_witness :
  let self := Build_SerialThread "COM3" "W" (Some "img.bin") (Some 3%Z) in
  let data := [x07; x08; x09] in
  let fs : gmap string (list byte) := {[ "img.bin" := data ]} in
  let res := run 3 self (start (fun _ => None) [[xaa]; [xaa]] fs granted) in
  exists size payload,
    sent_bytes (trace res.2) = [x57] ++ [x00; x00; x00; x00] ++ size ++ payload
    /\ (3 <= Z.of_nat (length payload) < 3 + 256)%Z.
Proof.
  intros self data fs res.
  destruct (transfer_lengths 3 self (fun _ => None) [[xaa]; [xaa]] fs granted 3
              "img.bin" eq_refl eq_refl) as [_ H].
  - vm_compute. auto.
  - destruct (H eq_refl) as (size & d & payload & _ & _ & Hs & _ & Hl & _).
    exists size, payload. split; [exact Hs | exact Hl].
Defined.

(** C2, as the specification words it, fails for Write: with a total length of 1
    and a file of 2 bytes the loop sends both bytes in its single chunk,
    reports 200 percent, and the thread ends with [finished] once the
    final ack comes: 2 bytes of payload were sent, not 1. *)
Lemma write_sends_beyond_total :
  let self := Build_SerialThread "COM3" "W" (Some "img.bin") (Some 1%Z) in
  let fs : gmap string (list byte) := {[ "img.bin" := [x07; x08] ]} in
  let res := run 1 self (start (fun _ => None) [[xaa]; [xaa]] fs granted) in
  res.1 = Val tt
  /\ signals res.2 = [progress 200; finished]
  /\ sent_bytes (trace res.2)
     = [x57] ++ [x00; x00; x00; x00] ++ [x01; x00; x00; x00] ++ [x07; x08]
  /\ ~ (exists payload,
          sent_bytes (trace res.2)
          = [x57] ++ [x00; x00; x00; x00] ++ [x01; x00; x00; x00] ++ payload
          /\ Z.of_nat (length payload) = 1%Z).
Proof.
  intros self fs res.
  assert (Hs : sent_bytes (trace res.2)
               = [x57] ++ [x00; x00; x00; x00] ++ [x01; x00; x00; x00]
                 ++ [x07; x08]) by (vm_compute; reflexivity).
  split; [vm_compute; reflexivity|]. split; [vm_compute; reflexivity|].
  split; [exact Hs|].
  intros (payload & Hp & Hl). rewrite Hs in Hp.
  repeat (apply app_inv_head in Hp). subst payload. cbn in Hl. lia.
Qed.

(* ================================================================== *)
(** * The length on the wire *)
(* ================================================================== *)

Lemma byte_val_of z :
  (0 <= z < 256)%Z ->
  byte_val (match Byte.of_N (Z.to_N z) with Some c => c | None => x00 end) = z.
Proof.
  intros H. destruct (Byte.of_N (Z.to_N z)) as [c|] eqn:E.
  - apply Byte.to_of_N in E. unfold byte_val. rewrite E. lia.
  - apply Byte.of_N_None_iff in E. lia.
Qed.

(** The four bytes [to_bytes(4, 'little')] writes for a length decode,
    as [int.from_bytes(..., 'little')] decodes, to that length. *)
Lemma to_bytes4_decodes n size :
  to_bytes4 n = inr size -> length size = 4%nat /\ from_bytes size = n.
Proof.
  intros H. pose proof (to_bytes4_range _ _ H) as Hr.
  unfold to_bytes4 in H.
  destruct (Z.ltb_spec n 0); [discriminate|].
  destruct (Z.leb_spec (2 ^ 32) n); [discriminate|].
  injection H as <-. split; [reflexivity|].
  cbn [map from_bytes].
  rewrite !byte_val_of by (apply Z.mod_pos_bound; lia).
  change (2 ^ (8 * 0))%Z with 1%Z. change (2 ^ (8 * 1))%Z with 256%Z.
  change (2 ^ (8 * 2))%Z with 65536%Z.
  change (2 ^ (8 * 3))%Z with 16777216%Z.
  change (2 ^ 32)%Z with 4294967296%Z in *.
  Z.to_euclidean_division_equations. lia.
Qed.

(** X1.  Whatever the port does: once a Read or a Write has got as far
    as a read on the port, the port has been handed the command byte,
    four zero bytes and four bytes that decode, little-endian, to the
    length the thread was given, which therefore lies between 0 and
    2^32 - 1; what a Write sends after them comes behind these nine
    bytes. *)
Theorem request_carries_length (fuel : nat) (self : SerialThread)
    (f : nat -> option string) (r : list (list byte))
    (fs : gmap string (list byte))
    (d : string -> option exn) (N : Z) :
  command self = "R" \/ command self = "W" -> flash_size self = Some N ->
  let res := run fuel self (start f r fs d) in
  read_sizes (trace res.2) <> [] ->
  exists size rest,
    sent_bytes (trace res.2)
    = (if String.eqb (command self) "R" then [x52] else [x57])
        ++ [x00; x00; x00; x00] ++ size ++ rest
    /\ length size = 4%nat /\ from_bytes size = N
    /\ (0 <= N < 2 ^ 32)%Z.
Proof.
  intros Hc Hn res. subst res. rewrite run_trace. unfold commands.
  destruct Hc as [Hc|Hc]; rewrite Hc;
    cbn [String.eqb Ascii.eqb Bool.eqb]; cbv beta iota;
    unfold flash_size_bytes; rewrite Hn;
    destruct ((ser_open;;; _) (start f r fs d)) as [r0 w0] eqn:E;
    cbn [snd]; intros Hread;
    (port_case E; [injection E as <- <-; destruct Hread; reflexivity|]);
    (port_case E; [injection E as <- <-; destruct Hread; reflexivity|]);
    (port_case E; [injection E as <- <-; destruct Hread; reflexivity|]);
    (destruct (to_bytes4 N) as [e|size] eqn:Hsz; cbn [lift] in E;
     [unfold bind at 1, raise in E; injection E as <- <-;
      destruct Hread; reflexivity|]);
    unfold bind at 1, ret in E;
    (port_case E; [injection E as <- <-; destruct Hread; reflexivity|]);
    fold (ser_read 1) in E;
    match type of E with ?K ?w = _ =>
      assert (G : guarded K) by discharge_guarded;
      destruct (G _ _ _ E) as (_ & (calls & Ht & _) & _)
    end;
    destruct (to_bytes4_decodes _ _ Hsz) as [Hlen Hval];
    exists size, (sent_bytes calls);
    (split; [rewrite Ht, sent_bytes_app;
             cbn [trace log set_rx start app sent_bytes];
             rewrite app_nil_r; reflexivity|]);
    (split; [exact Hlen|]); (split; [exact Hval|]);
    exact (to_bytes4_range _ _ Hsz).
Qed.

Lemma request_carries_length_witness :
  let self := Build_SerialThread "COM3" "R" (Some "dump.bin") (Some 65536%Z) in
  let res :=
    run 1 self (start (fun i => if (i =? 6)%nat then Some "gone" else None)
                  [[xaa]; [x01]] ∅ granted) in
  exists size rest,
    sent_bytes (trace res.2) = [x52] ++ [x00; x00; x00; x00] ++ size ++ rest
    /\ length size = 4%nat /\ from_bytes size = 65536%Z
    /\ (0 <= 65536 < 2 ^ 32)%Z.
Proof.
  intros self res.
  apply (request_carries_length 1 self
           (fun i => if (i =? 6)%nat then Some "gone" else None)
           [[xaa]; [x01]] ∅ granted 65536).
  - left. reflexivity.
  - reflexivity.
  - vm_compute. discriminate.
Defined.

(* ================================================================== *)
(** * A request that is not acknowledged *)
(* ================================================================== *)

(** X2.  A Read or a Write whose request is answered by anything but the
    byte 0xAA (another byte, or nothing within the timeout) emits
    [error "ACK failed"] and stops: only the nine bytes of the request
    went to the port, one read was made, and no file was opened, so a dump
    file that exists is not truncated. *)
Theorem handshake_refused (fuel : nat) (self : SerialThread)
    (f : nat -> option string) (r : list (list byte))
    (fs : gmap string (list byte))
    (d : string -> option exn) (n : Z) :
  command self = "R" \/ command self = "W" ->
  flash_size self = Some n -> (0 <= n < 2 ^ 32)%Z ->
  reliable f -> (recv 1 r).1 <> [xaa] ->
  let res := run fuel self (start f r fs d) in
  res.1 = Val tt
  /\ signals res.2 = [error "ACK failed"]
  /\ files res.2 = fs
  /\ read_sizes (trace res.2) = [1%Z]
  /\ exists size,
       to_bytes4 n = inr size
       /\ sent_bytes (trace res.2)
          = (if String.eqb (command self) "R" then [x52] else [x57])
              ++ [x00; x00; x00; x00] ++ size.
Proof.
  intros Hc Hn Hrange Hf Hack res. subst res.
  destruct (to_bytes4_ok n Hrange) as (size & Hsz & _).
  assert (Hno : bytes_eqb (recv 1 r).1 ACK = false).
  { unfold bytes_eqb, ACK. apply bool_decide_eq_false. exact Hack. }
  unfold run, commands.
  destruct Hc as [Hc|Hc]; rewrite Hc;
    cbn [String.eqb Ascii.eqb Bool.eqb]; cbv beta iota;
    unfold flash_size_bytes; rewrite Hn, Hsz; cbn [lift];
    repeat step; cbn [rx log start set_rx]; rewrite Hno; cbn [negb];
    cbv [bind emit return_];
    cbn [fst snd signals files trace add_signal log set_rx start app
         read_sizes sent_bytes];
    (split; [reflexivity|]); (split; [reflexivity|]);
    (split; [reflexivity|]); (split; [reflexivity|]);
    exists size; (split; [reflexivity|]); rewrite app_nil_r; reflexivity.
Qed.

Lemma handshake_refused_witness :
  let self := Build_SerialThread "COM3" "R" (Some "dump.bin") (Some 8%Z) in
  let fs : gmap string (list byte) := {[ "dump.bin" := [x01; x02] ]} in
  let res := run 4 self (start (fun _ => None) [[x55]] fs granted) in
  signals res.2 = [error "ACK failed"] /\ files res.2 = fs.
Proof.
  intros self fs res.
  destruct (handshake_refused 4 self (fun _ => None) [[x55]] fs granted 8
              (or_introl eq_refl) eq_refl ltac:(lia) (fun _ => eq_refl)
              ltac:(vm_compute; discriminate))
    as (_ & H2 & H3 & _).
  split; [exact H2 | exact H3].
Defined.

(* ================================================================== *)
(** * The chunks of a Write *)
(* ================================================================== *)

Lemma take_plus {A} (l : list A) n m :
  firstn (n + m) l = firstn n l ++ firstn m (skipn n l).
Proof.
  revert l. induction n as [|n IH]; intros l; [reflexivity|].
  destruct l as [|x l]; cbn [Nat.add firstn skipn app].
  - rewrite take_nil. reflexivity.
  - rewrite IH. reflexivity.
Qed.

(** The loop over a file that holds exactly the bytes still to send:
    one [progress] per chunk of 256 bytes. *)
Lemma write_loop_progress total :
  forall fuel f sent w,
    reliable (faults w) -> (0 <= sent)%Z ->
    (sent + Z.of_nat (length f) = total)%Z -> (length f <= fuel)%nat ->
    exists w' ps,
      write_loop fuel f total sent w = (Val tt, w')
      /\ faults w' = faults w /\ rx w' = rx w
      /\ signals w' = signals w ++ map progress ps
      /\ Forall (fun p => (0 <= p <= 100)%Z) ps
      /\ (forall lo, percent sent total = inr lo ->
            Forall (fun p => (lo <= p)%Z) ps)
      /\ ascending ps
      /\ ((sent < total)%Z -> last ps = Some 100%Z)
      /\ Z.of_nat (length ps) = ((Z.of_nat (length f) + 255) / 256)%Z.
Proof.
  induction fuel as [|fuel IH]; intros f sent w Hf H0 Hsum Hfuel.
  - assert (E : f = []) by (apply nil_length_inv; lia). subst f.
    cbn in Hsum. rewrite write_loop_done by lia.
    exists w, []. cbn [ret map last ascending length]. rewrite !app_nil_r.
    repeat split; try constructor; intros; lia.
  - destruct (Z.ltb_spec sent total) as [Hlt|Hge].
    + rewrite write_loop_step by exact Hlt.
      pose proof (length_take f 256) as Hlen.
      pose proof (length_drop f 256) as Hlen'.
      set (chunk := firstn 256 f) in *. set (f' := skipn 256 f) in *.
      rewrite (bind_val _ _ _ _ _ (ser_write_ok _ _ Hf)).
      set (sent' := (sent + Z.of_nat (length chunk))%Z) in *.
      assert (Hs' : (0 <= sent' <= total)%Z) by (unfold sent'; lia).
      pose proof (percent_eq sent' total Hs' ltac:(lia)) as Hp.
      set (p := Qfloor _) in Hp. rewrite Hp.
      unfold emit, lift, ret. cbn [bind]. plain_percent Hp.
      match goal with |- context [write_loop fuel f' total sent' ?w1] =>
        destruct (IH f' sent' w1)
          as (w' & ps & Hrun & Hfa & Hrx & Hsig & Hrange & Hlo & Hasc
              & Hlast & Hcount)
      end; [exact Hf | lia | unfold sent'; lia | lia |].
      assert (Hmono : forall lo, percent sent total = inr lo -> (lo <= p)%Z).
      { intros lo Hlo'.
        exact (percent_mono sent sent' total lo p ltac:(unfold sent'; lia)
                 ltac:(lia) ltac:(lia) Hlo' Hp). }
      exists w', (p :: ps). split; [exact Hrun|].
      split; [exact Hfa|]. split; [exact Hrx|].
      split; [rewrite Hsig; cbn [signals add_signal log map];
              rewrite <- app_assoc; reflexivity|].
      split; [constructor;
              [exact (percent_range _ _ _ Hs' ltac:(lia) Hp) | exact Hrange]|].
      split; [intros lo Hlo'; constructor; [exact (Hmono lo Hlo')|];
              eapply Forall_impl; [apply (Hlo p Hp)|];
              intros q Hq; cbn beta in Hq; specialize (Hmono lo Hlo'); lia|].
      split; [apply ascending_cons; [apply (Hlo p Hp) | exact Hasc]|].
      split.
      * intros _. destruct (Z.eq_dec sent' total) as [E|NE].
        -- assert (Ef : f' = []) by (apply nil_length_inv; unfold sent' in E; lia).
           rewrite Ef in Hcount.
           change ((Z.of_nat (length (@nil byte)) + 255) / 256)%Z
             with 0%Z in Hcount.
           destruct ps; [|cbn [length] in Hcount; lia].
           cbn [last]. f_equal.
           rewrite E in Hp. rewrite percent_full in Hp by lia. congruence.
        -- specialize (Hlast ltac:(lia)).
           destruct ps as [|q ps']; [discriminate | exact Hlast].
      * cbn [length]. rewrite Nat2Z.inj_succ, Hcount.
        assert (Hl : (0 < length f)%nat) by lia.
        destruct (Nat.le_gt_cases 256 (length f)).
        -- replace (Z.of_nat (length f') + 255)%Z
             with ((Z.of_nat (length f) + 255) + (-1) * 256)%Z by lia.
           rewrite Z.div_add by lia. lia.
        -- replace (length f') with 0%nat by lia.
           change ((Z.of_nat 0 + 255) / 256)%Z with 0%Z.
           apply Z.div_unique with (r := (Z.of_nat (length f) - 1)%Z); lia.
    + assert (E : f = []) by (apply nil_length_inv; lia). subst f.
      rewrite write_loop_done by lia.
      exists w, []. cbn [ret map last ascending length]. rewrite !app_nil_r.
      repeat split; try constructor; intros; lia.
Qed.

(** X3.  A Write of the [N] bytes of a file, on a port that raises
    nothing and acknowledges the request: the thread emits one [progress]
    per chunk of 256 bytes, [(N + 255) / 256] of them, non-decreasing,
    between 0 and 100, the last one 100; the signal after them is the one
    that ends the Write. *)
Theorem write_progress (fuel : nat) (self : SerialThread)
    (f : nat -> option string) (r : list (list byte))
    (fs : gmap string (list byte))
    (d : string -> option exn) (N : Z) (path : string) (data : list byte) :
  command self = "W" -> flash_size self = Some N -> file_path self = Some path ->
  fs !! path = Some data -> Z.of_nat (length data) = N -> (N < 2 ^ 32)%Z ->
  reliable f -> (recv 1 r).1 = [xaa] -> (length data <= fuel)%nat ->
  let res := run fuel self (start f r fs d) in
  exists ps s,
    signals res.2 = map progress ps ++ [s]
    /\ is_progress s = false
    /\ ascending ps
    /\ Forall (fun p => (0 <= p <= 100)%Z) ps
    /\ ((0 < N)%Z -> last ps = Some 100%Z)
    /\ Z.of_nat (length ps) = ((N + 255) / 256)%Z.
Proof.
  intros Hc Hn Hp Hdata Hlen Hlt Hf Hack Hfuel res. subst res.
  destruct (to_bytes4_ok N ltac:(lia)) as (size & Hsize & _).
  rewrite (run_write_reliable fuel self f r fs d N path size data)
    by assumption.
  match goal with |- context [write_loop fuel data N 0 ?w1] =>
    destruct (write_loop_progress N fuel data 0 w1)
      as (w' & ps & Hrun & Hfa & Hrx & Hsig & Hrange & _ & Hasc & Hlast
          & Hcount);
      [exact Hf | lia | lia | exact Hfuel |]
  end.
  rewrite Hrun.
  assert (Hf' : reliable (faults w')) by (rewrite Hfa; exact Hf).
  rewrite (ser_read_ok _ _ Hf').
  exists ps. eexists. cbn [fst snd signals add_signal log set_rx].
  rewrite Hsig. cbn [signals app].
  split; [reflexivity|].
  split; [destruct (bytes_eqb _ _); reflexivity|].
  split; [exact Hasc|]. split; [exact Hrange|].
  split; [intros; apply Hlast; lia|]. rewrite Hcount, Hlen. reflexivity.
Qed.

Lemma write_progress_witness :
  let self := Build_SerialThread "COM3" "W" (Some "img.bin") (Some 3%Z) in
  let data := [x07; x08; x09] in
  let fs : gmap string (list byte) := {[ "img.bin" := data ]} in
  let res := run 3 self (start (fun _ => None) [[xaa]; [xaa]] fs granted) in
  exists ps s,
    signals res.2 = map progress ps ++ [s]
    /\ last ps = Some 100%Z
    /\ Z.of_nat (length ps) = 1%Z.
Proof.
  intros self data fs res.
  assert (Hl : fs !! "img.bin" = Some data) by (vm_compute; reflexivity).
  destruct (write_progress 3 self (fun _ => None) [[xaa]; [xaa]] fs granted 3
              "img.bin" data eq_refl eq_refl eq_refl Hl eq_refl
              ltac:(lia) (fun _ => eq_refl) eq_refl ltac:(cbn; lia))
    as (ps & s & H1 & _ & _ & _ & H5 & H6).
  exists ps, s. split; [exact H1|]. split; [apply H5; lia | exact H6].
Defined.

(** The loop over a file that ends before [total] is reached: at the
    end of the file [f.read(256)] returns nothing, and the loop goes on
    writing nothing. *)
Lemma write_loop_starved total :
  forall fuel f sent w,
    reliable (faults w) -> (0 <= sent)%Z ->
    (sent + Z.of_nat (length f) < total)%Z ->
    exists w' ps,
      write_loop fuel f total sent w = (Spin, w')
      /\ signals w' = signals w ++ map progress ps
      /\ length ps = fuel
      /\ Forall (fun p => (0 <= p <= 100)%Z) ps
      /\ sent_bytes (trace w') = sent_bytes (trace w) ++ firstn (256 * fuel) f.
Proof.
  induction fuel as [|fuel IH]; intros f sent w Hf H0 Hsum.
  - exists w, []. cbn [write_loop]. destruct (Z.ltb_spec sent total); [|lia].
    cbn [map length firstn Nat.mul]. rewrite !app_nil_r.
    repeat split. constructor.
  - rewrite write_loop_step by lia.
    pose proof (length_take f 256) as Hlen.
    pose proof (length_drop f 256) as Hlen'.
    rewrite (bind_val _ _ _ _ _ (ser_write_ok _ _ Hf)).
    set (sent' := (sent + Z.of_nat (length (firstn 256 f)))%Z) in *.
    assert (Hs' : (0 <= sent' <= total)%Z) by (unfold sent'; lia).
    pose proof (percent_eq sent' total Hs' ltac:(lia)) as Hp.
    set (p := Qfloor _) in Hp. rewrite Hp.
    unfold emit, lift, ret. cbn [bind]. plain_percent Hp.
    match goal with |- context [write_loop fuel _ total sent' ?w1] =>
      destruct (IH (skipn 256 f) sent' w1)
        as (w' & ps & Hrun & Hsig & Hcount & Hrange & Hsent)
    end; [exact Hf | lia | unfold sent'; lia |].
    exists w', (p :: ps). split; [exact Hrun|].
    split; [rewrite Hsig; cbn [signals add_signal log map];
            rewrite <- app_assoc; reflexivity|].
    split; [cbn [length]; lia|].
    split; [constructor;
            [exact (percent_range _ _ _ Hs' ltac:(lia) Hp) | exact Hrange]|].
    rewrite Hsent. cbn [trace add_signal log].
    rewrite sent_bytes_app. cbn [sent_bytes]. rewrite app_nil_r, <- app_assoc.
    f_equal. replace (256 * S fuel)%nat with (256 + 256 * fuel)%nat by lia.
    rewrite take_plus. reflexivity.
Qed.

(** X4.  A Write that announces more bytes than the file holds, on a
    port that raises nothing and acknowledges the request: whatever the
    fuel, the loop is still running when the fuel is spent; it has emitted
    one [progress] per round and no other signal, and what it has sent
    after the request is the head of the file, all of it once the rounds
    outnumber its chunks. *)
Theorem write_short_file_never_ends (fuel : nat) (self : SerialThread)
    (f : nat -> option string) (r : list (list byte))
    (fs : gmap string (list byte))
    (d : string -> option exn) (N : Z) (path : string) (data : list byte) :
  command self = "W" -> flash_size self = Some N -> file_path self = Some path ->
  fs !! path = Some data -> (Z.of_nat (length data) < N < 2 ^ 32)%Z ->
  reliable f -> (recv 1 r).1 = [xaa] ->
  let res := run fuel self (start f r fs d) in
  res.1 = Spin
  /\ exists ps size,
       signals res.2 = map progress ps
       /\ length ps = fuel
       /\ Forall (fun p => (0 <= p <= 100)%Z) ps
       /\ to_bytes4 N = inr size
       /\ sent_bytes (trace res.2)
          = [x57] ++ [x00; x00; x00; x00] ++ size ++ firstn (256 * fuel) data.
Proof.
  intros Hc Hn Hp Hdata Hlen Hf Hack res. subst res.
  destruct (to_bytes4_ok N ltac:(lia)) as (size & Hsize & _).
  rewrite (run_write_reliable fuel self f r fs d N path size data)
    by assumption.
  match goal with |- context [write_loop fuel data N 0 ?w1] =>
    destruct (write_loop_starved N fuel data 0 w1)
      as (w' & ps & Hrun & Hsig & Hcount & Hrange & Hsent);
      [exact Hf | lia | lia |]
  end.
  rewrite Hrun. cbn [fst snd]. split; [reflexivity|].
  exists ps, size. split; [exact Hsig|]. split; [exact Hcount|].
  split; [exact Hrange|]. split; [exact Hsize|].
  rewrite Hsent. cbn [trace sent_bytes app]. rewrite app_nil_r. reflexivity.
Qed.

Lemma write_short_file_never_ends_witness :
  let self := Build_SerialThread "COM3" "W" (Some "img.bin") (Some 5%Z) in
  let data := [x07; x08; x09] in
  let fs : gmap string (list byte) := {[ "img.bin" := data ]} in
  let res := run 4 self (start (fun _ => None) [[xaa]; [xaa]] fs granted) in
  res.1 = Spin /\ exists ps, signals res.2 = map progress ps /\ length ps = 4%nat.
Proof.
  intros self data fs res.
  assert (Hl : fs !! "img.bin" = Some data) by (vm_compute; reflexivity).
  destruct (write_short_file_never_ends 4 self (fun _ => None) [[xaa]; [xaa]]
              fs granted 5 "img.bin" data eq_refl eq_refl eq_refl Hl
              ltac:(cbn; lia) (fun _ => eq_refl) eq_refl)
    as (H1 & ps & size & H2 & H3 & _).
  split; [exact H1|]. exists ps. split; [exact H2 | exact H3].
Defined.

(* ================================================================== *)
(** * What every command keeps *)
(* ================================================================== *)

Section Keeping.

Variable T : string -> Prop.
Variable Q : signal -> Prop.

Lemma keeps_same {A} (m : M A) :
  (forall w r w', m w = (r, w') ->
     trace w' = trace w /\ signals w' = signals w /\ files w' = files w) ->
  keeps T Q m.
Proof.
  intros H w r w' E. destruct (H w r w' E) as (Ht & Hs & Hf).
  split; [exists []; rewrite app_nil_r; split; [exact Ht | constructor]|].
  split; [exists []; rewrite app_nil_r; split; [exact Hs | constructor]|].
  intros p _. rewrite Hf. reflexivity.
Qed.

Lemma keeps_ret {A} (a : A) : keeps T Q (ret a).
Proof. apply keeps_same. intros w r w' [= <- <-]. repeat split. Qed.

Lemma keeps_raise {A} e : keeps T Q (@raise world A e).
Proof. apply keeps_same. intros w r w' [= <- <-]. repeat split. Qed.

Lemma keeps_spin {A} : keeps T Q (@spin world A).
Proof. apply keeps_same. intros w r w' [= <- <-]. repeat split. Qed.

Lemma keeps_return {A} : keeps T Q (@return_ world A).
Proof. apply keeps_same. intros w r w' [= <- <-]. repeat split. Qed.

Lemma keeps_lift {A} (x : exn + A) : keeps T Q (lift x).
Proof. destruct x; [apply keeps_raise | apply keeps_ret]. Qed.

Lemma keeps_open_rb path : keeps T Q (open_rb path).
Proof.
  destruct path as [p|]; [|apply keeps_raise]. apply keeps_same.
  intros w r w' H. cbn in H.
  destruct (files w !! p); injection H as <- <-; repeat split.
Qed.

Lemma keeps_flash_size_bytes self : keeps T Q (flash_size_bytes self).
Proof.
  unfold flash_size_bytes. destruct (flash_size self);
    [apply keeps_lift | apply keeps_raise].
Qed.

(** What comes after a statement may rely on what its value satisfies. *)
Lemma keeps_bind {A B} (P : A -> Prop) (m : M A) (f : A -> M B) :
  keeps T Q m -> (forall w a w', m w = (Val a, w') -> P a) ->
  (forall a, P a -> keeps T Q (f a)) -> keeps T Q (bind m f).
Proof.
  intros Hm HP Hf w r w' H. unfold bind in H.
  destruct (m w) as [r1 w1] eqn:E1.
  destruct (Hm w r1 w1 E1) as ((c1 & Ec1 & Hc1) & (n1 & En1 & Hn1) & F1).
  destruct r1 as [a| |e|];
    try (injection H as <- <-;
         split; [exists c1; split; assumption|];
         split; [exists n1; split; assumption | exact F1]).
  destruct (Hf a (HP w a w1 E1) w1 r w' H)
    as ((c2 & Ec2 & Hc2) & (n2 & En2 & Hn2) & F2).
  split; [exists (c1 ++ c2); rewrite Ec2, Ec1, app_assoc;
          split; [reflexivity | apply Forall_app; split; assumption]|].
  split; [exists (n1 ++ n2); rewrite En2, En1, app_assoc;
          split; [reflexivity | apply Forall_app; split; assumption]|].
  intros p Hp. rewrite (F2 p Hp). apply F1, Hp.
Qed.

Lemma keeps_seq {A B} (m : M A) (f : A -> M B) :
  keeps T Q m -> (forall a, keeps T Q (f a)) -> keeps T Q (bind m f).
Proof.
  intros Hm Hf. apply (keeps_bind (fun _ => True)); auto.
Qed.

Lemma keeps_port_call {A} (body : world -> A * call * world) :
  (forall w, trace (body w).2 = trace w
             /\ signals (body w).2 = signals w
             /\ files (body w).2 = files w
             /\ call_ok (body w).1.2) ->
  keeps T Q (port_call body).
Proof.
  intros Hb w r w' H. unfold port_call in H.
  destruct (faults w (length (trace w))) as [msg|].
  - injection H as <- <-.
    split; [exists [Faulted msg]; split; [reflexivity|]; repeat constructor|].
    split; [exists []; rewrite app_nil_r; split; [reflexivity | constructor]|].
    reflexivity.
  - destruct (Hb w) as (Ht & Hs & Hf & Hc).
    destruct (body w) as [[a c] w1]. cbn [fst snd] in *.
    injection H as <- <-.
    split; [exists [c]; cbn [trace log]; rewrite Ht;
            split; [reflexivity | repeat constructor; exact Hc]|].
    split; [exists []; rewrite app_nil_r; split; [exact Hs | constructor]|].
    intros p _. cbn [files log]. rewrite Hf. reflexivity.
Qed.

Lemma keeps_ser_open : keeps T Q ser_open.
Proof. apply keeps_port_call. intros w. repeat split. Qed.

Lemma keeps_ser_write data :
  (length data <= 256)%nat -> keeps T Q (ser_write data).
Proof. intros H. apply keeps_port_call. intros w. repeat split. exact H. Qed.

Lemma keeps_ser_read size :
  (1 <= size <= 4096)%Z -> keeps T Q (ser_read size).
Proof.
  intros H. apply keeps_port_call. intros w.
  destruct (recv size (rx w)). repeat split; apply H.
Qed.

Lemma keeps_emit s : Q s -> keeps T Q (emit s).
Proof.
  intros H w r w' [= <- <-].
  split; [exists []; rewrite app_nil_r; split; [reflexivity | constructor]|].
  split; [exists [s]; split; [reflexivity | repeat constructor; exact H]|].
  reflexivity.
Qed.

Lemma keeps_open_wb p : T p -> keeps T Q (open_wb (Some p)).
Proof.
  intros Hp w r w' H. cbn [open_wb] in H.
  destruct (denied w p); injection H as <- <-;
    (split; [exists []; rewrite app_nil_r; split; [reflexivity | constructor]|]);
    (split; [exists []; rewrite app_nil_r; split; [reflexivity | constructor]|]);
    [reflexivity|].
  intros p' Hp'. cbn [files set_files]. apply lookup_insert_ne.
  intros ->. exact (Hp' Hp).
Qed.

Lemma keeps_f_write p chunk : T p -> keeps T Q (f_write p chunk).
Proof.
  intros Hp w r w' [= <- <-].
  split; [exists []; rewrite app_nil_r; split; [reflexivity | constructor]|].
  split; [exists []; rewrite app_nil_r; split; [reflexivity | constructor]|].
  intros p' Hp'. cbn [files set_files]. apply lookup_alter_ne.
  intros ->. exact (Hp' Hp).
Qed.

Hypothesis progress_ok : forall p, Q (progress p).

Lemma keeps_read_loop fuel p total :
  T p -> forall received, keeps T Q (read_loop fuel p total received).
Proof using progress_ok.
  intros Hp. induction fuel as [|fuel IH]; intros received; cbn [read_loop];
    destruct (Z.ltb_spec received total);
    try apply keeps_ret; try apply keeps_spin.
  apply keeps_seq; [apply keeps_ser_read; lia|]. intros chunk.
  apply keeps_seq; [apply keeps_f_write, Hp|]. intros _.
  apply keeps_seq; [apply keeps_lift|]. intros q.
  apply keeps_seq; [apply keeps_emit, progress_ok|]. intros _. apply IH.
Qed.

Lemma keeps_write_loop fuel total :
  forall f sent, keeps T Q (write_loop fuel f total sent).
Proof using progress_ok.
  induction fuel as [|fuel IH]; intros f sent; cbn [write_loop];
    destruct (sent <? total)%Z;
    try apply keeps_ret; try apply keeps_spin.
  cbn [f_read].
  apply keeps_seq; [apply keeps_ser_write; rewrite length_take; lia|].
  intros _.
  apply keeps_seq; [apply keeps_lift|]. intros q.
  apply keeps_seq; [apply keeps_emit, progress_ok|]. intros _. apply IH.
Qed.

End Keeping.

Lemma flash_size_bytes_length self w size w' :
  flash_size_bytes self w = (Val size, w') -> length size = 4%nat.
Proof.
  unfold flash_size_bytes. destruct (flash_size self) as [n|]; [|discriminate].
  destruct (to_bytes4 n) as [e|bs] eqn:E; cbn [lift]; [discriminate|].
  intros [= <- <-]. unfold to_bytes4 in E.
  destruct (n <? 0)%Z; [discriminate|].
  destruct (2 ^ 32 <=? n)%Z; [discriminate|]. injection E as <-. reflexivity.
Qed.

(** Every command, on every port and with every file system. *)
Lemma keeps_commands fuel self :
  keeps (fun p => command self = "R" /\ file_path self = Some p)
        (signal_ok (command self))
        (ser_open ;;; commands fuel self).
Proof.
  set (T := fun p => command self = "R" /\ file_path self = Some p).
  set (Q := signal_ok (command self)).
  assert (Hprog : forall p, Q (progress p)) by (intros p; exact I).
  assert (Herr : forall m, Q (error m)) by (intros m; exact I).
  assert (Hfin : Q finished) by exact I.
  apply keeps_seq; [apply keeps_ser_open | intros _].
  unfold commands.
  destruct (String.eqb_spec (command self) "D") as [Hd|_].
  { apply keeps_seq; [apply keeps_ser_write; cbn; lia | intros _].
    apply keeps_seq; [apply keeps_ser_read; lia | intros jedec].
    destruct (Nat.eqb_spec (length jedec) 3) as [E3|_]; cbn [negb].
    - apply keeps_seq; [apply keeps_ser_read; lia | intros cap].
      destruct (Nat.eqb_spec (length cap) 4) as [E4|_]; cbn [negb].
      + apply keeps_emit. unfold Q, signal_ok.
        split; [exact Hd|]. split; [exact E3 | apply c_int_range].
      + apply keeps_seq; [apply keeps_emit, Herr | intros _; apply keeps_return].
    - apply keeps_seq; [apply keeps_emit, Herr | intros _; apply keeps_return]. }
  destruct (String.eqb_spec (command self) "R") as [Hr|_].
  { apply keeps_seq; [apply keeps_ser_write; cbn; lia | intros _].
    apply keeps_seq; [apply keeps_ser_write; cbn; lia | intros _].
    apply (keeps_bind T Q (fun size => length size = 4%nat));
      [apply keeps_flash_size_bytes | apply flash_size_bytes_length |].
    intros size Hsize.
    apply keeps_seq; [apply keeps_ser_write; lia | intros _].
    apply keeps_seq; [apply keeps_ser_read; lia | intros ack].
    destruct (bytes_eqb ack ACK); cbn [negb].
    - destruct (file_path self) as [p|] eqn:Hp.
      + assert (HT : T p) by (split; [exact Hr | reflexivity]).
        apply (keeps_bind T Q (fun p' => p' = p));
          [ apply keeps_open_wb, HT
          | intros w a w' E; cbn [open_wb] in E;
            destruct (denied w p);
            [discriminate E | injection E as <- _; reflexivity] |].
        intros p' ->.
        apply keeps_seq; [apply keeps_read_loop; assumption | intros _].
        apply keeps_emit, Hfin.
      + apply (keeps_bind T Q (fun _ => False));
          [apply keeps_raise | intros w a w' E; discriminate E | intros a []].
    - apply keeps_seq; [apply keeps_emit, Herr | intros _; apply keeps_return]. }
  destruct (String.eqb_spec (command self) "W") as [Hw|_].
  { apply keeps_seq; [apply keeps_ser_write; cbn; lia | intros _].
    apply keeps_seq; [apply keeps_ser_write; cbn; lia | intros _].
    apply (keeps_bind T Q (fun size => length size = 4%nat));
      [apply keeps_flash_size_bytes | apply flash_size_bytes_length |].
    intros size Hsize.
    apply keeps_seq; [apply keeps_ser_write; lia | intros _].
    apply keeps_seq; [apply keeps_ser_read; lia | intros ack].
    destruct (bytes_eqb ack ACK); cbn [negb].
    - apply keeps_seq; [apply keeps_open_rb | intros data].
      apply keeps_seq; [apply keeps_write_loop; assumption | intros _].
      apply keeps_seq; [apply keeps_ser_read; lia | intros ack2].
      destruct (bytes_eqb ack2 ACK); apply keeps_emit; [exact Hfin | apply Herr].
    - apply keeps_seq; [apply keeps_emit, Herr | intros _; apply keeps_return]. }
  destruct (String.eqb_spec (command self) "E") as [He|_].
  { apply keeps_seq; [apply keeps_ser_write; cbn; lia | intros _].
    apply keeps_seq; [apply keeps_ser_read; lia | intros ack].
    destruct (bytes_eqb ack ACK); apply keeps_emit; [exact Hfin | apply Herr]. }
  apply keeps_ret.
Qed.

Lemma keeps_run fuel self f r fs d :
  let res := run fuel self (start f r fs d) in
  Forall call_ok (trace res.2)
  /\ Forall (signal_ok (command self)) (signals res.2)
  /\ (forall p, ~ (command self = "R" /\ file_path self = Some p) ->
        files res.2 !! p = fs !! p).
Proof.
  intros res. subst res. unfold run.
  destruct ((ser_open;;; commands fuel self) (start f r fs d)) as [r0 w0] eqn:E.
  destruct (keeps_commands fuel self _ _ _ E)
    as ((calls & Ec & Hc) & (new & En & Hn) & Hfiles).
  cbn [start trace signals files app] in Ec, En, Hfiles.
  destruct r0 as [a| |e|];
    cbn [emit fst snd trace signals files add_signal];
    rewrite ?Ec, ?En;
    (split; [exact Hc|]); (split; [|exact Hfiles]); try exact Hn.
  apply Forall_app. split; [exact Hn | repeat constructor].
Qed.

Lemma read_sizes_ok t :
  Forall call_ok t -> Forall (fun n => (1 <= n <= 4096)%Z) (read_sizes t).
Proof.
  induction 1 as [|c t Hc _ IH]; [constructor|].
  destruct c; cbn [read_sizes]; try exact IH. constructor; [exact Hc | exact IH].
Qed.

(** X5.  Whatever the command, the port and the files: every read the
    thread makes on the port asks for at least 1 and at most 4096 bytes,
    and every write hands the port at most 256 bytes. *)
Theorem port_calls_bounded (fuel : nat) (self : SerialThread)
    (f : nat -> option string) (r : list (list byte))
    (fs : gmap string (list byte))
    (d : string -> option exn) :
  let res := run fuel self (start f r fs d) in
  Forall (fun n => (1 <= n <= 4096)%Z) (read_sizes (trace res.2))
  /\ forall data, In (Written data) (trace res.2) -> (length data <= 256)%nat.
Proof.
  intros res. destruct (keeps_run fuel self f r fs d) as (Hc & _ & _).
  fold res in Hc. split; [apply read_sizes_ok, Hc|].
  intros data Hin. rewrite Forall_forall in Hc.
  apply list_elem_of_In in Hin. exact (Hc _ Hin).
Qed.

(** X6.  Whatever the port delivers: a [detect_result] is only ever
    emitted by a Detect, and it carries exactly three JEDEC bytes and a
    capacity that is a C++ [int], between -2^31 and 2^31 - 1. *)
Theorem detection_well_formed (fuel : nat) (self : SerialThread)
    (f : nat -> option string) (r : list (list byte))
    (fs : gmap string (list byte))
    (d : string -> option exn) (jedec : list byte) (cap : Z) :
  let res := run fuel self (start f r fs d) in
  In (detect_result jedec cap) (signals res.2) ->
  command self = "D" /\ length jedec = 3%nat /\ (- 2 ^ 31 <= cap < 2 ^ 31)%Z.
Proof.
  intros res Hin. destruct (keeps_run fuel self f r fs d) as (_ & Hs & _).
  fold res in Hs. rewrite Forall_forall in Hs.
  apply list_elem_of_In in Hin. exact (Hs _ Hin).
Qed.

Lemma detection_well_formed_witness :
  let self := Build_SerialThread "COM3" "D" None None in
  let res :=
    run 0 self (start (fun _ => None)
                  [[xef; x40; x18]; [x00; x00; x00; x01]] ∅ granted) in
  command self = "D" /\ length [xef; x40; x18] = 3%nat
  /\ (- 2 ^ 31 <= 16777216 < 2 ^ 31)%Z.
Proof.
  intros self res.
  apply (detection_well_formed 0 self (fun _ => None)
           [[xef; x40; x18]; [x00; x00; x00; x01]] ∅ granted [xef; x40; x18] 16777216).
  vm_compute. left. reflexivity.
Defined.

(** X7.  Whatever the port does: Detect, Write and Erase leave every
    file as it was, and a Read changes no file but the one it dumps to. *)
Theorem files_untouched (fuel : nat) (self : SerialThread)
    (f : nat -> option string) (r : list (list byte))
    (fs : gmap string (list byte))
    (d : string -> option exn) (p : string) :
  (command self = "R" -> file_path self <> Some p) ->
  files (run fuel self (start f r fs d)).2 !! p = fs !! p.
Proof.
  intros H. destruct (keeps_run fuel self f r fs d) as (_ & _ & Hf).
  apply Hf. intros [Hc Hp]. exact (H Hc Hp).
Qed.

Lemma files_untouched_witness :
  let self := Build_SerialThread "COM3" "R" (Some "dump.bin") (Some 2%Z) in
  let fs : gmap string (list byte) := {[ "keep.bin" := [x01] ]} in
  files (run 2 self (start (fun _ => None) [[xaa]; [x05; x06]] fs granted)).2
    !! "keep.bin" = fs !! "keep.bin".
Proof.
  intros self fs.
  apply (files_untouched 2 self (fun _ => None) [[xaa]; [x05; x06]] fs granted
           "keep.bin").
  intros _. discriminate.
Defined.

(* ================================================================== *)
(** * How a run ends *)
(* ================================================================== *)

Lemma noreturn_ret {A} (a : A) : noreturn (ret a).
Proof. intros w r w' [= <- _]. discriminate. Qed.

Lemma noreturn_raise {A} e : noreturn (@raise world A e).
Proof. intros w r w' [= <- _]. discriminate. Qed.

Lemma noreturn_spin {A} : noreturn (@spin world A).
Proof. intros w r w' [= <- _]. discriminate. Qed.

Lemma noreturn_lift {A} (x : exn + A) : noreturn (lift x).
Proof. destruct x; [apply noreturn_raise | apply noreturn_ret]. Qed.

Lemma noreturn_emit s : noreturn (emit s).
Proof. intros w r w' [= <- _]. discriminate. Qed.

Lemma noreturn_port_call {A} (body : world -> A * call * world) :
  noreturn (port_call body).
Proof.
  intros w r w' H. unfold port_call in H.
  destruct (faults w (length (trace w))); [injection H as <- _; discriminate|].
  destruct (body w) as [[a c] w1]. injection H as <- _. discriminate.
Qed.

Lemma noreturn_open_wb path : noreturn (open_wb path).
Proof.
  destruct path as [p|]; [|apply noreturn_raise]. intros w r w' H.
  cbn [open_wb] in H. destruct (denied w p); injection H as <- _; discriminate.
Qed.

Lemma noreturn_open_rb path : noreturn (open_rb path).
Proof.
  destruct path as [p|]; [|apply noreturn_raise]. intros w r w' H. cbn in H.
  destruct (files w !! p); injection H as <- _; discriminate.
Qed.

Lemma noreturn_f_write p chunk : noreturn (f_write p chunk).
Proof. intros w r w' [= <- _]. discriminate. Qed.

Lemma noreturn_flash_size_bytes self : noreturn (flash_size_bytes self).
Proof.
  unfold flash_size_bytes. destruct (flash_size self);
    [apply noreturn_lift | apply noreturn_raise].
Qed.

Lemma noreturn_bind {A B} (m : M A) (f : A -> M B) :
  noreturn m -> (forall a, noreturn (f a)) -> noreturn (bind m f).
Proof.
  intros Hm Hf w r w' H. unfold bind in H.
  destruct (m w) as [r1 w1] eqn:E1. pose proof (Hm w r1 w1 E1) as N1.
  destruct r1 as [a| |e|]; try (injection H as <- _; discriminate).
  - exact (Hf a w1 r w' H).
  - destruct (N1 eq_refl).
Qed.

Lemma noreturn_read_loop fuel path total :
  forall received, noreturn (read_loop fuel path total received).
Proof.
  induction fuel as [|fuel IH]; intros received; cbn [read_loop];
    destruct (received <? total)%Z;
    try apply noreturn_ret; try apply noreturn_spin.
  apply noreturn_bind; [apply noreturn_port_call | intros chunk].
  apply noreturn_bind; [apply noreturn_f_write | intros _].
  apply noreturn_bind; [apply noreturn_lift | intros p].
  apply noreturn_bind; [apply noreturn_emit | intros _]. apply IH.
Qed.

Lemma noreturn_write_loop fuel total :
  forall f sent, noreturn (write_loop fuel f total sent).
Proof.
  induction fuel as [|fuel IH]; intros f sent; cbn [write_loop];
    destruct (sent <? total)%Z;
    try apply noreturn_ret; try apply noreturn_spin.
  cbn [f_read].
  apply noreturn_bind; [apply noreturn_port_call | intros _].
  apply noreturn_bind; [apply noreturn_lift | intros p].
  apply noreturn_bind; [apply noreturn_emit | intros _]. apply IH.
Qed.

Lemma noreturn_ser_open : noreturn ser_open.
Proof. apply noreturn_port_call. Qed.

Lemma noreturn_ser_write data : noreturn (ser_write data).
Proof. apply noreturn_port_call. Qed.

Lemma noreturn_ser_read size : noreturn (ser_read size).
Proof. apply noreturn_port_call. Qed.

#[local] Hint Resolve noreturn_ser_open noreturn_ser_write noreturn_ser_read
  noreturn_open_wb noreturn_open_rb noreturn_flash_size_bytes
  noreturn_read_loop noreturn_write_loop : engine.

Lemma calm_intro {A} (m : M A) : quiet m -> noreturn m -> calm m.
Proof. intros Hq Hn. split; assumption. Qed.

Lemma ending_emit s : is_progress s = false -> ending (emit s).
Proof.
  intros Hs w r w' [= <- <-]. split; [reflexivity|]. split; [discriminate|].
  exists s. split; [exact Hs | reflexivity].
Qed.

Lemma ending_emit_return s :
  is_progress s = false -> ending (emit s ;;; @return_ world unit).
Proof.
  intros Hs w r w' [= <- <-]. split; [reflexivity|]. split; [discriminate|].
  exists s. split; [exact Hs | reflexivity].
Qed.

Lemma settled_ending {A} (m : M A) : ending m -> settled m.
Proof.
  intros Hm w r w' H. destruct (Hm w r w' H) as (Hr & Hs & s & Hp & Hsig).
  exists [], [s]. split; [exact Hsig|].
  destruct r as [a| |e|]; try (exists s; split; [reflexivity | exact Hp]).
  - discriminate Hr.
  - destruct (Hs eq_refl).
Qed.

Lemma settled_bind {A B} (m : M A) (f : A -> M B) :
  calm m -> (forall a, settled (f a)) -> settled (bind m f).
Proof.
  intros [Hq Hn] Hf w r w' H. unfold bind in H.
  destruct (m w) as [r1 w1] eqn:E1.
  destruct (Hq w r1 w1 E1) as (_ & _ & ps1 & Hps1).
  pose proof (Hn w r1 w1 E1) as N1.
  destruct r1 as [a| |e|].
  - destruct (Hf a w1 r w' H) as (ps2 & tail & Hs & Ht).
    exists (ps1 ++ ps2), tail. split; [|exact Ht].
    rewrite Hs, Hps1, map_app, <- !app_assoc. reflexivity.
  - destruct (N1 eq_refl).
  - injection H as <- <-. exists ps1, []. rewrite app_nil_r.
    split; [exact Hps1 | reflexivity].
  - injection H as <- <-. exists ps1, []. rewrite app_nil_r.
    split; [exact Hps1 | reflexivity].
Qed.

Ltac discharge_settled :=
  solve [repeat first
    [ apply settled_bind;
      [apply calm_intro; solve [auto with engine] | intros ?]
    | match goal with |- settled (if ?c then _ else _) => destruct c end
    | apply settled_ending;
      first [ apply ending_emit; reflexivity
            | apply ending_emit_return; reflexivity ] ]].

(** Each of the four commands is settled. *)
Lemma settled_commands fuel self :
  known (command self) -> settled (ser_open ;;; commands fuel self).
Proof.
  intros Hk. apply settled_bind;
    [apply calm_intro; [apply quiet_ser_open | apply noreturn_ser_open]
    | intros _].
  unfold commands.
  destruct (String.eqb_spec (command self) "D") as [_|Hd]; [discharge_settled|].
  destruct (String.eqb_spec (command self) "R") as [_|Hr]; [discharge_settled|].
  destruct (String.eqb_spec (command self) "W") as [_|Hw]; [discharge_settled|].
  destruct (String.eqb_spec (command self) "E") as [_|He]; [discharge_settled|].
  destruct Hk as [H|[H|[H|H]]]; contradiction.
Qed.

(** X8.  Whatever the port delivers and whichever call fails: a run of
    one of the four commands emits its [progress] values first and then
    exactly one other signal ([finished], [detect_result] or [error]),
    after which it emits nothing; the only run without that last signal is
    one whose transfer loop is still waiting. *)
Theorem one_terminal_signal (fuel : nat) (self : SerialThread)
    (f : nat -> option string) (r : list (list byte))
    (fs : gmap string (list byte))
    (d : string -> option exn) :
  known (command self) ->
  let res := run fuel self (start f r fs d) in
  exists ps,
    (res.1 = Val tt
     /\ exists s, is_progress s = false
                  /\ signals res.2 = map progress ps ++ [s])
    \/ (res.1 = Spin /\ signals res.2 = map progress ps).
Proof.
  intros Hk res. subst res. unfold run.
  destruct ((ser_open;;; commands fuel self) (start f r fs d)) as [r0 w0] eqn:E.
  destruct (settled_commands fuel self Hk _ _ _ E) as (ps & tail & Hs & Ht).
  cbn [start signals app] in Hs.
  destruct r0 as [[]| |e|]; cbn [emit fst snd signals add_signal].
  - destruct Ht as (s & -> & Hp). exists ps. left.
    split; [reflexivity|]. exists s. split; [exact Hp | exact Hs].
  - destruct Ht as (s & -> & Hp). exists ps. left.
    split; [reflexivity|]. exists s. split; [exact Hp | exact Hs].
  - subst tail. exists ps. left. split; [reflexivity|].
    eexists. split; [|rewrite Hs, app_nil_r; reflexivity]. reflexivity.
  - subst tail. exists ps. right. rewrite app_nil_r in Hs.
    split; [reflexivity | exact Hs].
Qed.

Lemma one_terminal_signal_witness :
  let self := Build_SerialThread "COM3" "E" None None in
  let res := run 0 self (start (fun _ => None) [[x55]] ∅ granted) in
  exists ps,
    (res.1 = Val tt
     /\ exists s, is_progress s = false
                  /\ signals res.2 = map progress ps ++ [s])
    \/ (res.1 = Spin /\ signals res.2 = map progress ps).
Proof.
  intros self res.
  apply (one_terminal_signal 0 self (fun _ => None) [[x55]] ∅ granted).
  right. right. right. reflexivity.
Defined.

(** The end of a branch of a command without a loop. *)
Ltac end_of_run :=
  cbn [emit fst snd signals trace add_signal log set_rx start app length];
  split; [reflexivity|];
  split; [eexists; split; reflexivity | lia].

(** X9.  A Detect or an Erase has no loop to wait in: whatever the port
    does and whatever arrives, the run ends, having emitted exactly one
    signal (never a [progress]) and made at most four calls on the port
    for a Detect (open, write, two reads) and three for an Erase. *)
Theorem detect_erase_end (fuel : nat) (self : SerialThread)
    (f : nat -> option string) (r : list (list byte))
    (fs : gmap string (list byte))
    (d : string -> option exn) :
  command self = "D" \/ command self = "E" ->
  let res := run fuel self (start f r fs d) in
  res.1 = Val tt
  /\ (exists s, signals res.2 = [s] /\ is_progress s = false)
  /\ (length (trace res.2)
      <= if String.eqb (command self) "D" then 4 else 3)%nat.
Proof.
  intros Hc res. subst res. unfold run, commands.
  destruct Hc as [Hc|Hc]; rewrite Hc;
    cbn [String.eqb Ascii.eqb Bool.eqb]; cbv beta iota;
    destruct ((ser_open;;; _) (start f r fs d)) as [r0 w0] eqn:E.
  - port_case E; [injection E as <- <-; end_of_run|].
    port_case E; [injection E as <- <-; end_of_run|].
    port_case E; [injection E as <- <-; end_of_run|].
    match type of E with context [recv 3 ?x] =>
      destruct (recv 3 x) as [jedec rx1] end.
    cbn [fst snd] in E.
    destruct (negb (length jedec =? 3)%nat).
    { cbv [bind emit return_] in E. injection E as <- <-. end_of_run. }
    port_case E; [injection E as <- <-; end_of_run|].
    match type of E with context [recv 4 ?x] =>
      destruct (recv 4 x) as [cap rx2] end.
    cbn [fst snd] in E.
    destruct (negb (length cap =? 4)%nat);
      cbv [bind emit return_] in E; injection E as <- <-; end_of_run.
  - port_case E; [injection E as <- <-; end_of_run|].
    port_case E; [injection E as <- <-; end_of_run|].
    port_case E; [injection E as <- <-; end_of_run|].
    match type of E with context [recv 1 ?x] =>
      destruct (recv 1 x) as [ack rx1] end.
    cbn [fst snd] in E.
    destruct (bytes_eqb ack ACK); cbv [emit] in E; injection E as <- <-;
      end_of_run.
Qed.

Lemma detect_erase_end_witness :
  let self := Build_SerialThread "COM3" "D" None None in
  let res := run 0 self (start (fun i => if (i =? 2)%nat then Some "gone" else None)
                           [[xef; x40; x18]] ∅ granted) in
  res.1 = Val tt
  /\ (exists s, signals res.2 = [s] /\ is_progress s = false)
  /\ (length (trace res.2) <= 4)%nat.
Proof.
  intros self res.
  apply (detect_erase_end 0 self
           (fun i => if (i =? 2)%nat then Some "gone" else None)
           [[xef; x40; x18]] ∅ granted).
  left. reflexivity.
Defined.

(* ================================================================== *)
(** * Every detection, decoded *)
(* ================================================================== *)

Lemma winbond_only b :
  default "Unknown" (MANUFACTURERS !! byte_val b) = "Winbond" ->
  MANUFACTURERS !! byte_val b = Some "Winbond".
Proof. destruct b; vm_compute; congruence. Qed.

Ltac decode :=
  cbn -[py_truediv format_1f format_02X format_X DEVICE_CAPACITY
        MANUFACTURERS Z.ltb Z.eqb Z.mul String.eqb].

(** X10.  Decoding any three JEDEC bytes with any capacity that fits 32
    bits either completes, which stores the capacity and the bytes, shows
    the part number and sets the status line to "Flash detected
    successfully", or raises [UnboundLocalError] on [mb]; it raises exactly
    when the capacity is 0, the first byte is Winbond's and the second is a
    device code the capacity table lacks, and then the part number, its
    label and the status line keep their former values. *)
Theorem process_detect_outcome (self : FlashUtility) (b0 b1 b2 : byte)
    (cap : Z) :
  (0 <= cap < 2 ^ 32)%Z ->
  let res := process_detect [b0; b1; b2] cap self in
  let unbound :=
    cap = 0%Z /\ MANUFACTURERS !! byte_val b0 = Some "Winbond"
    /\ DEVICE_CAPACITY !! byte_val b1 = None in
  capacity res.2 = cap /\ jedec_id res.2 = [b0; b1; b2]
  /\ lbl_manufacturer res.2 = manufacturer res.2
  /\ (unbound ->
        res.1 = Raise (UnboundLocalError "mb")
        /\ part_number res.2 = part_number self
        /\ lbl_part res.2 = lbl_part self
        /\ status res.2 = status self)
  /\ (~ unbound ->
        res.1 = Val tt
        /\ lbl_part res.2 = part_number res.2
        /\ status res.2 = "Flash detected successfully").
Proof.
  intros Hcap res unbound. subst res unbound.
  destruct (truediv_mb cap Hcap) as (q & Hq).
  unfold process_detect, bind, update, get, index, ret, lift, raise. decode.
  destruct (Z.eqb_spec cap 0) as [E0|N0]; decode; try rewrite Hq; decode;
    (destruct (String.eqb_spec
                 (default "Unknown" (MANUFACTURERS !! byte_val b0)) "Winbond")
       as [Hm|Hm]; decode;
     [ apply winbond_only in Hm;
       destruct (DEVICE_CAPACITY !! byte_val b1) as [label|] eqn:Hd; decode
     | assert (Hno : MANUFACTURERS !! byte_val b0 <> Some "Winbond")
         by (intros H; apply Hm; rewrite H; reflexivity);
       destruct (DEVICE_CAPACITY !! byte_val b2) as [label|]; decode;
       try (destruct (Z.ltb_spec 0 cap); [rewrite Hq|]; decode) ]);
    repeat (split; [reflexivity|]); split;
    try (intros _; repeat split; reflexivity);
    try (intros (? & ? & ?); (congruence || lia)).
  intros H. exfalso. apply H. repeat split; assumption.
Qed.

Lemma process_detect_outcome_witness :
  let res := process_detect [xef; x30; x13] 65536 init in
  res.1 = Val tt
  /\ lbl_part res.2 = part_number res.2
  /\ status res.2 = "Flash detected successfully".
Proof.
  intros res.
  destruct (process_detect_outcome init xef x30 x13 65536 ltac:(lia))
    as (_ & _ & _ & _ & H).
  apply H. intros (H0 & _). discriminate H0.
Defined.

(* ================================================================== *)
(** * Transfers started from the window *)
(* ================================================================== *)

Lemma not_grown {A} (l : list A) (x : A) : l <> l ++ [x].
Proof.
  intros H. apply (f_equal (@length A)) in H. rewrite length_app in H.
  cbn in H. lia.
Qed.

(** When [write_flash] starts a thread, it is a Write of a file that
    exists, over the whole length of the file, which fits the capacity. *)
Lemma write_flash_started (win : Window) (port_text picked : string)
    (disk : gmap string (list byte)) (t : SerialThread) :
  started (write_flash port_text picked disk win).2 = started win ++ [t] ->
  exists data,
    disk !! picked = Some data
    /\ t = {| port := port_text; command := "W"; file_path := Some picked;
              flash_size := Some (Z.of_nat (length data)) |}
    /\ (Z.of_nat (length data) <= capacity (ui win))%Z
    /\ port_text <> "" /\ picked <> "".
Proof.
  unfold write_flash, method, bind, on_ui, get, critical, return_, launch,
    file_size.
  cbn [fst snd ui started].
  destruct (capacity (ui win) =? 0)%Z;
    [cbn [snd started]; intros Hst; destruct (not_grown _ _ Hst)|].
  destruct (String.eqb_spec port_text "") as [|Hport];
    [cbn [snd started]; intros Hst; destruct (not_grown _ _ Hst)|].
  destruct (String.eqb_spec picked "") as [|Hpicked];
    [cbn [snd started]; intros Hst; destruct (not_grown _ _ Hst)|].
  destruct (disk !! picked) as [data|];
    [|cbn [snd started raise]; intros Hst; destruct (not_grown _ _ Hst)].
  cbn [ret fst snd ui started].
  destruct (Z.ltb_spec (capacity (ui win)) (Z.of_nat (length data)));
    cbn [snd started]; intros Hst; [destruct (not_grown _ _ Hst)|].
  apply app_inv_head in Hst. injection Hst as <-.
  exists data. repeat split; assumption.
Qed.

(** X11.  A Write started by the window, on the file system as it was
    when the file was picked: its file exists and fits the detected
    capacity, and when the thread ends with [finished], what went to the
    port is the request, with the length of the file, followed by the bytes
    of the file, all of them and nothing more. *)
Theorem window_write_sends_file (win : Window) (port_text picked : string)
    (disk : gmap string (list byte)) (t : SerialThread) (fuel : nat)
    (f : nat -> option string) (r : list (list byte))
    (d : string -> option exn) :
  started (write_flash port_text picked disk win).2 = started win ++ [t] ->
  let res := run fuel t (start f r disk d) in
  In finished (signals res.2) ->
  exists data size,
    disk !! picked = Some data
    /\ (Z.of_nat (length data) <= capacity (ui win))%Z
    /\ to_bytes4 (Z.of_nat (length data)) = inr size
    /\ sent_bytes (trace res.2) = [x57] ++ [x00; x00; x00; x00] ++ size ++ data.
Proof.
  intros Hstart res Hfin. subst res.
  destruct (write_flash_started win port_text picked disk t Hstart)
    as (data & Hdata & Ht & Hfit & _ & _).
  destruct (run_write_success fuel t f r disk d (Z.of_nat (length data)) picked
              ltac:(subst t; reflexivity) ltac:(subst t; reflexivity)
              ltac:(subst t; reflexivity) Hfin)
    as (size & data' & w1 & w2 & Hsz & Hdata' & Hreq & Hloop & Hsent).
  assert (data' = data) by congruence. subst data'.
  destruct (write_loop_payload _ fuel data 0 w1 _ w2 Hloop)
    as (payload & Hpay & Hprefix & Hub & Hlb).
  specialize (Hlb eq_refl).
  assert (payload = data) as ->.
  { rewrite Hprefix. apply take_ge. lia. }
  exists data, size. split; [exact Hdata|]. split; [exact Hfit|].
  split; [exact Hsz|].
  rewrite Hsent, Hpay, Hreq, <- !app_assoc. reflexivity.
Qed.

Lemma window_write_sends_file_witness :
  let ui0 := set_capacity 1048576 init in
  let win := Build_Window ui0 [] None [] in
  let disk : gmap string (list byte) := {[ "img.bin" := [x07; x08; x09] ]} in
  let t := Build_SerialThread "COM3" "W" (Some "img.bin") (Some 3%Z) in
  let res := run 3 t (start (fun _ => None) [[xaa]; [xaa]] disk granted) in
  exists data size,
    disk !! "img.bin" = Some data
    /\ (Z.of_nat (length data) <= capacity (ui win))%Z
    /\ to_bytes4 (Z.of_nat (length data)) = inr size
    /\ sent_bytes (trace res.2) = [x57] ++ [x00; x00; x00; x00] ++ size ++ data.
Proof.
  intros ui0 win disk t res.
  apply (window_write_sends_file win "COM3" "img.bin" disk t 3
           (fun _ => None) [[xaa]; [xaa]]).
  - vm_compute. reflexivity.
  - vm_compute. auto.
Defined.

(** When [read_flash] starts a thread, it is a Read of as many bytes as
    the capacity, into the file that was picked. *)
Lemma read_flash_started (win : Window) (port_text picked : string)
    (t : SerialThread) :
  started (read_flash port_text picked win).2 = started win ++ [t] ->
  t = {| port := port_text; command := "R"; file_path := Some picked;
         flash_size := Some (capacity (ui win)) |}
  /\ capacity (ui win) <> 0%Z /\ port_text <> "" /\ picked <> "".
Proof.
  unfold read_flash, method, bind, on_ui, get, critical, return_, launch.
  cbn [fst snd ui started].
  destruct (Z.eqb_spec (capacity (ui win)) 0);
    [cbn [snd started]; intros Hst; destruct (not_grown _ _ Hst)|].
  destruct (String.eqb_spec port_text "") as [|Hport];
    [cbn [snd started]; intros Hst; destruct (not_grown _ _ Hst)|].
  destruct (String.eqb_spec picked "") as [|Hpicked];
    [cbn [snd started]; intros Hst; destruct (not_grown _ _ Hst)|].
  cbn [snd started]. intros Hst.
  apply app_inv_head in Hst. injection Hst as <-. repeat split; assumption.
Qed.

(** X12.  A Read started by the window asks for as many bytes as the
    capacity the window holds, which is not 0; when the thread ends with
    [finished], the file that was picked holds exactly that many bytes,
    whatever it held before and however the port delivered them, and no
    other file has changed. *)
Theorem window_read_dumps_capacity (win : Window) (port_text picked : string)
    (t : SerialThread) (fuel : nat) (f : nat -> option string)
    (r : list (list byte)) (fs : gmap string (list byte))
    (d : string -> option exn) :
  started (read_flash port_text picked win).2 = started win ++ [t] ->
  let res := run fuel t (start f r fs d) in
  In finished (signals res.2) ->
  flash_size t = Some (capacity (ui win))
  /\ (0 < capacity (ui win) < 2 ^ 32)%Z
  /\ (exists sink,
        files res.2 !! picked = Some sink
        /\ Z.of_nat (length sink) = capacity (ui win))
  /\ (forall p, p <> picked -> files res.2 !! p = fs !! p).
Proof.
  intros Hstart res Hfin. subst res.
  destruct (read_flash_started win port_text picked t Hstart)
    as (Ht & Hcap & _ & _).
  destruct (run_read_success fuel t f r fs d (capacity (ui win)) picked
              ltac:(subst t; reflexivity) ltac:(subst t; reflexivity)
              ltac:(subst t; reflexivity) Hfin)
    as (w1 & w2 & Hfile & Hrange & Hloop & Hfiles).
  destruct (read_loop_sink picked _ fuel 0 w1 _ w2 [] Hloop Hfile eq_refl
              ltac:(lia)) as (sink & Hs & _ & Hlen).
  split; [subst t; reflexivity|]. split; [lia|].
  split; [exists sink; rewrite Hfiles; split; [exact Hs | exact (Hlen eq_refl)]|].
  intros p Hp. destruct (keeps_run fuel t f r fs d) as (_ & _ & Hkeep).
  apply Hkeep. subst t. cbn [command file_path]. intros [_ [= E]].
  exact (Hp (eq_sym E)).
Qed.

Lemma window_read_dumps_capacity_witness :
  let ui0 := set_capacity 3 init in
  let win := Build_Window ui0 [] None [] in
  let t := Build_SerialThread "COM3" "R" (Some "dump.bin") (Some 3%Z) in
  let fs : gmap string (list byte) := {[ "dump.bin" := [x01; x02; x03; x04] ]} in
  let res := run 3 t (start (fun _ => None) [[xaa]; [x05; x06]; [x07]] fs granted) in
  exists sink,
    files res.2 !! "dump.bin" = Some sink /\ Z.of_nat (length sink) = 3%Z.
Proof.
  intros ui0 win t fs res.
  assert (Hfin : In finished (signals res.2)) by (vm_compute; auto).
  destruct (window_read_dumps_capacity win "COM3" "dump.bin" t 3
              (fun _ => None) [[xaa]; [x05; x06]; [x07]] fs granted eq_refl Hfin)
    as (_ & _ & H & _).
  exact H.
Defined.

Ltac refused :=
  right;
  split; [reflexivity|]; split; [reflexivity|];
  first [left; reflexivity | right; eexists; reflexivity].

Ltac launched Hport :=
  left; eexists;
  repeat (split; [reflexivity|]); exact Hport.

(** X13.  A click on Detect, Read, Write or Erase leaves what the last
    detection stored as it is, and either starts exactly one thread, for
    the command of the button and on the port chosen, which is not empty,
    without showing a box, or starts no thread and shows at most one box:
    no thread is ever started without a port. *)
Theorem clicks (win : Window) (port_text picked : string)
    (disk : gmap string (list byte)) :
  click_ok "D" port_text win (detect_flash port_text win)
  /\ click_ok "R" port_text win (read_flash port_text picked win)
  /\ click_ok "W" port_text win (write_flash port_text picked disk win)
  /\ click_ok "E" port_text win (erase_chip port_text win).
Proof.
  unfold click_ok, detect_flash, read_flash, write_flash, erase_chip, method,
    bind, on_ui, get, critical, return_, launch, file_size.
  cbn [fst snd ui].
  destruct (String.eqb_spec port_text "") as [Hport|Hport];
    destruct (capacity (ui win) =? 0)%Z;
    destruct (String.eqb picked "");
    destruct (disk !! picked) as [data|];
    cbn [ret raise fst snd ui started boxes serial_thread];
    repeat match goal with
           | |- context [(?a <? ?b)%Z] => destruct (a <? b)%Z
           end;
    cbn [fst snd ui started boxes serial_thread];
    repeat split; first [refused | launched Hport].
Qed.

(* ================================================================== *)
(** * The progress of a Read *)
(* ================================================================== *)

(** On any port, the Read loop counts no more than [total] bytes, so
    what it reports stays between 0 and 100 and never goes down. *)
Lemma read_loop_tame path total :
  forall fuel received w r w',
    read_loop fuel path total received w = (r, w') ->
    (0 <= received <= total)%Z ->
    exists ps,
      signals w' = signals w ++ map progress ps
      /\ Forall (fun p => (0 <= p <= 100)%Z) ps
      /\ (forall lo, percent received total = inr lo ->
            Forall (fun p => (lo <= p)%Z) ps)
      /\ ascending ps.
Proof.
  induction fuel as [|fuel IH]; intros received w r w' Hrun Hrec.
  - cbn [read_loop] in Hrun. destruct (received <? total)%Z;
      injection Hrun as <- <-; exists []; cbn [map]; rewrite app_nil_r;
      repeat split; constructor.
  - destruct (Z.ltb_spec received total) as [Hlt|Hge].
    + rewrite read_loop_step in Hrun by exact Hlt. unfold bind at 1 in Hrun.
      unfold ser_read in Hrun.
      destruct (port_call_cases
                  (fun w => let '(got, r) := recv (Z.min 4096 (total - received)) (rx w)
                            in (got, Got (Z.min 4096 (total - received)) got,
                                set_rx r w)) w)
        as [(msg & _ & E) | (_ & E)]; rewrite E in Hrun; clear E.
      * injection Hrun as <- <-. exists []. cbn [map signals log].
        rewrite app_nil_r. repeat split; constructor.
      * pose proof (recv_length (Z.min 4096 (total - received)) (rx w)) as Hc.
        destruct (recv (Z.min 4096 (total - received)) (rx w)) as [chunk rx'].
        cbn [fst snd] in Hrun, Hc.
        unfold f_write, bind at 1 in Hrun.
        unfold bind at 1 in Hrun.
        set (received' := (received + Z.of_nat (length chunk))%Z) in *.
        assert (Hr' : (0 <= received' <= total)%Z) by (unfold received'; lia).
        pose proof (percent_eq received' total Hr' ltac:(lia)) as Hp.
        set (p := Qfloor _) in Hp. rewrite Hp in Hrun.
        cbn [lift ret] in Hrun. unfold emit, bind at 1 in Hrun.
        plain_percent_in Hp Hrun.
        destruct (IH _ _ _ _ Hrun Hr') as (ps & Hsig & Hrange & Hlo & Hasc).
        exists (p :: ps).
        split; [rewrite Hsig;
                cbn [signals add_signal set_files log set_rx map];
                rewrite <- app_assoc; reflexivity|].
        split; [constructor; [exact (percent_range _ _ _ Hr' ltac:(lia) Hp)
                             | exact Hrange]|].
        split; [|apply ascending_cons; [apply (Hlo p Hp) | exact Hasc]].
        intros lo Hlo'.
        pose proof (percent_mono received received' total lo p
                      ltac:(unfold received'; lia) ltac:(lia) ltac:(lia)
                      Hlo' Hp) as Hle.
        constructor; [exact Hle|].
        eapply Forall_impl; [apply (Hlo p Hp)|].
        intros q Hq. cbn beta in Hq. lia.
    + rewrite read_loop_done in Hrun by lia. injection Hrun as <- <-.
      exists []. cbn [map]. rewrite app_nil_r. repeat split; constructor.
Qed.

(** The end of a Read that did not reach its loop. *)
Ltac no_progress :=
  exists []; eexists;
  cbn [emit fst snd signals add_signal log set_rx set_files start app map];
  split; [reflexivity|]; split; [constructor|]; split; [exact I|];
  split; [cbn [length]; lia | repeat constructor].

(** X14.  Whatever the port delivers or raises, the [progress] values of
    a Read lie between 0 and 100 and never decrease, and after them comes
    at most one signal, which is not a [progress]. *)
Theorem read_progress_bounded (fuel : nat) (self : SerialThread)
    (f : nat -> option string) (r : list (list byte))
    (fs : gmap string (list byte))
    (d : string -> option exn) (N : Z) :
  command self = "R" -> flash_size self = Some N ->
  let res := run fuel self (start f r fs d) in
  exists ps tail,
    signals res.2 = map progress ps ++ tail
    /\ Forall (fun p => (0 <= p <= 100)%Z) ps
    /\ ascending ps
    /\ (length tail <= 1)%nat
    /\ Forall (fun s => is_progress s = false) tail.
Proof.
  intros Hc Hn res. subst res. unfold run, commands. rewrite Hc.
  cbn [String.eqb Ascii.eqb Bool.eqb]. cbv beta iota.
  unfold flash_size_bytes, total_of. rewrite Hn.
  destruct ((ser_open;;; _) (start f r fs d)) as [r0 w0] eqn:E.
  port_case E; [injection E as <- <-; no_progress|].
  port_case E; [injection E as <- <-; no_progress|].
  port_case E; [injection E as <- <-; no_progress|].
  destruct (to_bytes4 N) as [e|size] eqn:Hsz; cbn [lift] in E.
  { unfold bind at 1, raise in E. injection E as <- <-. no_progress. }
  unfold bind at 1, ret in E.
  port_case E; [injection E as <- <-; no_progress|].
  port_case E; [injection E as <- <-; no_progress|].
  rewrite !rx_log in E. cbn [rx start] in E.
  destruct (recv 1 r) as [ack rx1]. cbn [fst snd] in E.
  destruct (bytes_eqb ack ACK); cbn [negb] in E.
  2: { cbv [bind emit return_] in E. injection E as <- <-. no_progress. }
  destruct (file_path self) as [path|].
  2: { unfold bind at 1, open_wb, raise in E. injection E as <- <-.
       no_progress. }
  open_case E; [injection E as <- <-; no_progress|]. unfold bind at 1 in E.
  pose proof (to_bytes4_range _ _ Hsz) as Hrange.
  match type of E with context [read_loop fuel path N 0 ?w1] =>
    destruct (read_loop fuel path N 0 w1) as [r2 w2] eqn:Hloop;
    destruct (read_loop_tame path N fuel 0 w1 _ w2 Hloop ltac:(lia))
      as (ps & Hps & Hran & _ & Hasc)
  end.
  cbn [signals log set_rx set_files start app] in Hps.
  exists ps.
  destruct r2 as [[]| |e|]; injection E as <- <-;
    cbn [emit fst snd signals add_signal]; rewrite Hps;
    [ exists [finished] | exists [] | eexists [_] | exists [] ];
    rewrite ?app_nil_r;
    (split; [reflexivity|]); (split; [exact Hran|]); (split; [exact Hasc|]);
    (split; [cbn [length]; lia | repeat constructor]).
Qed.

Lemma read_progress_bounded_witness :
  let self := Build_SerialThread "COM3" "R" (Some "dump.bin") (Some 3%Z) in
  let res := run 5 self (start (fun i => if (i =? 7)%nat then Some "gone" else None)
                           [[xaa]; [x01]; []; [x02]; [x03]] ∅ granted) in
  exists ps tail,
    signals res.2 = map progress ps ++ tail
    /\ Forall (fun p => (0 <= p <= 100)%Z) ps
    /\ ascending ps
    /\ (length tail <= 1)%nat
    /\ Forall (fun s => is_progress s = false) tail.
Proof.
  intros self res.
  apply (read_progress_bounded 5 self
           (fun i => if (i =? 7)%nat then Some "gone" else None)
           [[xaa]; [x01]; []; [x02]; [x03]] ∅ granted 3); reflexivity.
Defined.

(* ================================================================== *)
(** * The capacity label *)
(* ================================================================== *)

Section CapacityLabel.
Import PyFloat.
Local Open Scope Q_scope.

Lemma rne_int x n : x == inject_Z n -> rne x = n.
Proof.
  intros H. apply Z.le_antisymm; [apply rne_le_Z | apply rne_ge_Z];
    rewrite H; apply Qle_refl.
Qed.

Lemma rne_comp x y : x == y -> rne x = rne y.
Proof.
  intros H. apply Z.le_antisymm; apply rne_mono; rewrite H; apply Qle_refl.
Qed.

Lemma format_1f_comp x y : x == y -> format_1f x = format_1f y.
Proof.
  intros H. unfold format_1f.
  rewrite (rne_comp (Qabs x * 10) (Qabs y * 10)) by (rewrite H; reflexivity).
  rewrite (Qleb_comp _ _ (Qeq_refl 0) _ _ H). reflexivity.
Qed.

(** A capacity below 2^32 divided by 2^20 has at most 32 significant
    bits: the quotient is a binary64 number, and the division is exact. *)
Lemma fl_mb cap :
  (0 < cap < 2 ^ 32)%Z ->
  fl (inject_Z cap / inject_Z (1024 * 1024))
  == inject_Z cap / inject_Z (1024 * 1024).
Proof.
  intros Hcap. set (x := inject_Z cap / inject_Z (1024 * 1024)).
  assert (Hx : x == inject_Z cap * pow2 (-20)) by reflexivity.
  assert (Hlo : pow2 (-20) <= x).
  { rewrite Hx. rewrite <- (Qmult_1_l (pow2 (-20))) at 1.
    apply Qmult_le_compat_r; [|apply Qlt_le_weak, pow2_pos].
    change 1 with (inject_Z 1). rewrite <- Zle_Qle. lia. }
  assert (Hhi : x < pow2 12).
  { rewrite Hx. apply Qlt_le_trans with (inject_Z (2 ^ 32) * pow2 (-20)).
    - apply Qmult_lt_compat_r; [apply pow2_pos|]. rewrite <- Zlt_Qlt. lia.
    - vm_compute. discriminate. }
  assert (Hpos : 0 < x) by (eapply Qlt_le_trans; [apply pow2_pos | exact Hlo]).
  destruct (Qlog2_spec x Hpos) as [L1 L2].
  set (l := Qlog2 x) in *.
  assert (Hl1 : (-20 <= l)%Z).
  { assert (H : pow2 (-20) < pow2 (l + 1))
      by (eapply Qle_lt_trans; [exact Hlo | exact L2]).
    apply pow2_lt_inv in H. lia. }
  assert (Hl2 : (l < 12)%Z).
  { assert (H : pow2 l < pow2 12)
      by (eapply Qle_lt_trans; [exact L1 | exact Hhi]).
    apply pow2_lt_inv in H. exact H. }
  unfold fl. destruct (Qnum x) as [|p|p] eqn:En.
  - exfalso. unfold Qlt in Hpos. rewrite En in Hpos.
    cbn [Qnum Qden] in Hpos. lia.
  - unfold round_pos. cbv zeta. unfold ulp_exp. fold l.
    replace (Z.max (l - (prec - 1)) emin) with (l - 52)%Z
      by (unfold prec, emin; lia).
    assert (Hs : x / pow2 (l - 52) == inject_Z (cap * 2 ^ (32 - l))).
    { rewrite inject_Z_mult, pow2_inject by lia. rewrite Hx.
      assert (E : pow2 (-20) == pow2 (l - 52) * pow2 (32 - l))
        by (rewrite <- pow2_add; f_equiv; lia).
      rewrite E. pose proof (pow2_pos (l - 52)) as Hp.
      field. intros C. rewrite C in Hp. discriminate. }
    rewrite (rne_int _ _ Hs), <- Hs. apply scale_cancel.
  - exfalso. unfold Qlt in Hpos. rewrite En in Hpos.
    cbn [Qnum Qden] in Hpos. lia.
Qed.

Lemma truediv_mb_exact cap :
  (0 < cap < 2 ^ 32)%Z ->
  exists q, py_truediv cap (1024 * 1024) = inr q
            /\ q == inject_Z cap / inject_Z (1024 * 1024).
Proof.
  intros H. destruct (truediv_mb cap ltac:(lia)) as (q & Hq).
  exists q. split; [exact Hq|]. unfold py_truediv in Hq.
  change (1024 * 1024 =? 0)%Z with false in Hq. cbv iota zeta in Hq.
  destruct (overflows _); [discriminate|]. injection Hq as <-.
  apply fl_mb, H.
Qed.

Lemma format_1f_whole k :
  (0 <= k)%Z -> format_1f (inject_Z k) = (str_int k ++ ".0")%string.
Proof.
  intros Hk. unfold format_1f.
  rewrite (rne_int (Qabs (inject_Z k) * 10) (k * 10)).
  - replace (Qle_bool 0 (inject_Z k)) with true.
    + rewrite Z.div_mul, Z.mod_mul by lia. reflexivity.
    + symmetry. apply Qle_bool_iff. change 0 with (inject_Z 0).
      rewrite <- Zle_Qle. exact Hk.
  - rewrite Qabs_pos, inject_Z_mult; [reflexivity|].
    change 0 with (inject_Z 0). rewrite <- Zle_Qle. exact Hk.
Qed.

End CapacityLabel.

(** X15.  For a capacity between 1 and 2^32 - 1 the division by
    1024 * 1024 is exact in binary64, so the capacity label shows the true
    number of MiB rounded once to one decimal, whichever part number is
    found; a capacity of [k] whole MiB is shown as [k] followed by
    ".0 MB". *)
Theorem capacity_label (self : FlashUtility) (b0 b1 b2 : byte) (cap : Z) :
  (0 < cap < 2 ^ 32)%Z ->
  let res := process_detect [b0; b1; b2] cap self in
  lbl_capacity res.2
  = (format_1f (inject_Z cap / inject_Z (1024 * 1024)) ++ " MB")%string
  /\ (forall k, cap = (k * (1024 * 1024))%Z ->
        lbl_capacity res.2 = ((str_int k ++ ".0") ++ " MB")%string).
Proof.
  intros Hcap res.
  assert (Hl : lbl_capacity res.2
    = (format_1f (inject_Z cap / inject_Z (1024 * 1024)) ++ " MB")%string).
  { subst res. destruct (truediv_mb_exact cap Hcap) as (q & Hq & Hex).
    rewrite <- (format_1f_comp _ _ Hex).
    unfold process_detect, bind, update, get, index, ret, lift, raise. decode.
    destruct (Z.eqb_spec cap 0) as [E0|N0]; [lia|]. rewrite Hq. decode.
    destruct (String.eqb
                (default "Unknown" (MANUFACTURERS !! byte_val b0)) "Winbond");
      decode;
      [ destruct (DEVICE_CAPACITY !! byte_val b1) as [label|]
      | destruct (DEVICE_CAPACITY !! byte_val b2) as [label|] ];
      decode; try reflexivity.
    destruct (Z.ltb_spec 0 cap); [rewrite Hq|]; reflexivity. }
  split; [exact Hl|]. intros k Hk. rewrite Hl. f_equal.
  rewrite <- (format_1f_whole k) by lia. apply format_1f_comp.
  rewrite Hk, inject_Z_mult. field. discriminate.
Qed.

Lemma capacity_label_witness :
  lbl_capacity (process_detect [xef; x40; x18] 16777216 init).2 = "16.0 MB".
Proof.
  destruct (capacity_label init xef x40 x18 16777216 ltac:(lia)) as [_ H].
  exact (H 16%Z eq_refl).
Defined.

(* ================================================================== *)
(** * A Write whose file is gone *)
(* ================================================================== *)

(** [repr] of a path: plain between single quotes, between double
    quotes when it holds an apostrophe, the backslash doubled. *)
Example py_repr_paths :
  py_repr "img.bin" = "'img.bin'"
  /\ py_repr "it's.bin"
     = String double_quote ("it's.bin" ++ String double_quote EmptyString)
  /\ py_repr (String "C" (String ":" (String backslash "img.bin")))
     = String single_quote
         (String "C" (String ":" (String backslash (String backslash
            "img.bin'")))).
Proof. repeat split; vm_compute; reflexivity. Qed.



(* ================================================================== *)
(** * A Read whose dump file cannot be opened *)
(* ================================================================== *)

(** X17.  A Read whose dump file cannot be opened for writing, on a port
    that raises nothing: the request has gone to the port and has been
    acknowledged before the file is opened, so the thread stops after the
    nine bytes of the request and the read of the ack, reads none of the
    bytes the device was asked for, changes no file, and reports the
    exception as a port error. *)
Theorem read_dump_refused (fuel : nat) (self : SerialThread)
    (f : nat -> option string) (r : list (list byte))
    (fs : gmap string (list byte))
    (d : string -> option exn) (N : Z) (path : string) (e : exn) :
  command self = "R" -> flash_size self = Some N -> (0 <= N < 2 ^ 32)%Z ->
  file_path self = Some path -> d path = Some e ->
  reliable f -> (recv 1 r).1 = [xaa] ->
  let res := run fuel self (start f r fs d) in
  res.1 = Val tt
  /\ signals res.2 = [error ("Port error: " ++ exn_str e)]
  /\ files res.2 = fs
  /\ read_sizes (trace res.2) = [1%Z]
  /\ exists size,
       to_bytes4 N = inr size
       /\ sent_bytes (trace res.2) = [x52] ++ [x00; x00; x00; x00] ++ size.
Proof.
  intros Hc Hn Hrange Hp Hden Hf Hack res. subst res.
  destruct (to_bytes4_ok N Hrange) as (size & Hsz & _).
  unfold run, commands. rewrite Hc.
  cbn [String.eqb Ascii.eqb Bool.eqb]. cbv beta iota.
  unfold flash_size_bytes. rewrite Hn, Hsz, Hp. cbn [lift].
  repeat step. cbn [rx log start set_rx]. rewrite Hack.
  change (negb (bytes_eqb [xaa] ACK)) with false. cbv iota.
  match goal with |- context [bind (open_wb (Some path)) _ ?w] =>
    rewrite (bind_raise _ _ _ _ _ (open_wb_denied path w e Hden))
  end.
  cbn [emit fst snd signals files trace add_signal log set_rx start app
       read_sizes sent_bytes].
  split; [reflexivity|]. split; [reflexivity|]. split; [reflexivity|].
  split; [reflexivity|]. exists size. split; [reflexivity|].
  rewrite app_nil_r. reflexivity.
Qed.

Lemma read_dump_refused_witness :
  let self :=
    Build_SerialThread "COM3" "R" (Some "nodir/dump.bin") (Some 3%Z) in
  let d := fun p : string =>
    if String.eqb p "nodir/dump.bin"
    then Some (FileNotFoundError "nodir/dump.bin") else None in
  let res := run 3 self (start (fun _ => None) [[xaa]; [x01; x02; x03]] ∅ d) in
  res.1 = Val tt
  /\ signals res.2
     = [error "Port error: [Errno 2] No such file or directory: 'nodir/dump.bin'"]
  /\ files res.2 = ∅.
Proof.
  intros self d res.
  destruct (read_dump_refused 3 self (fun _ => None) [[xaa]; [x01; x02; x03]]
              ∅ d 3 "nodir/dump.bin" (FileNotFoundError "nodir/dump.bin")
              eq_refl eq_refl ltac:(lia) eq_refl eq_refl (fun _ => eq_refl)
              eq_refl)
    as (H1 & H2 & H3 & _).
  split; [exact H1|]. split; [exact H2 | exact H3].
Defined.
